(** * lcapy/schemcpts.py: schematic components

    A shallow embedding of the component classes that lcapy draws with
    circuitikz: construction and automatic naming, orientation and the
    rotation matrix, the node sets (nodes, vnodes, dnodes), the local
    coordinates of every component family, the layout constraints handed
    to the graphs, and the drawing command of a one-port.

    Python values are modelled as follows.
    - [str] is [string]; a tuple or list of node names is [list string].
    - [int] is [Z]; [float] is a binary64 [float]; a number that may be
      either is a [num].
    - a numpy array is an [ndarray]: an int64 or a float64 matrix.
    - a [dict] whose order of iteration matters ([opts]) is an association
      list with Python's update rules; the dictionaries of the schematic
      ([anon], [elements], [nodes]) are [gmap]s.
    - an exception is a value of [exn]; a computation that can raise
      returns a [result].
    - an object that is mutated ([sch.anon], [self.opts], the [_tcoords]
      cache) is threaded through the functions that change it. *)

From Stdlib Require Import ZArith String Ascii List Floats Uint63 Lia.
From stdpp Require Import gmap strings list fin_maps pretty.

Set Warnings "-inexact-float".

Local Open Scope string_scope.
Local Open Scope Z_scope.

(** ** Exceptions and results *)

(** The exception classes this module can raise, directly or through the
    builtins it calls. [KeyError] keeps its key when the key is a string;
    [KeyError_object] is the [KeyError] on a key that is an object of
    another kind. *)
Inductive exn : Type :=
| KeyError (key : string)
| KeyError_object
| IndexError
| ValueError
| AttributeError (attr : string)
| NotImplementedError
| TypeError.

Inductive result (A : Type) : Type :=
| Ok (a : A)
| Raise (e : exn).

Arguments Ok {A} a.
Arguments Raise {A} e.

Global Instance result_ret : MRet result := fun A a => Ok a.

Global Instance result_bind : MBind result := fun A B k r =>
  match r with
  | Ok a => k a
  | Raise e => Raise e
  end.

Global Instance result_fmap : FMap result := fun A B f r =>
  match r with
  | Ok a => Ok (f a)
  | Raise e => Raise e
  end.

Definition raises {A : Type} (r : result A) : Prop :=
  exists e, r = Raise e.

(** ** Strings *)

Definition newline : string := String (ascii_of_nat 10) EmptyString.

(** [str(n)] for an int. *)
Definition str (n : Z) : string := pretty n.

(** [sep.join(parts)]. *)
Fixpoint join (sep : string) (parts : list string) : string :=
  match parts with
  | [] => ""
  | [p] => p
  | p :: rest => p +:+ sep +:+ join sep rest
  end.

(** [s.split(c)[0]]: the text before the first occurrence of [c]. *)
Fixpoint split_head (c : ascii) (s : string) : string :=
  match s with
  | EmptyString => EmptyString
  | String a rest => if Ascii.eqb a c then EmptyString else String a (split_head c rest)
  end.

(** [x in (a, b, ...)] for strings. *)
Definition in_tuple (x : string) (t : list string) : bool :=
  existsb (String.eqb x) t.

(** ** Ordered dictionaries with string keys *)

Module Dict.

Definition t : Type := list (string * string).

Definition empty : t := [].

Fixpoint get (k : string) (d : t) : option string :=
  match d with
  | [] => None
  | (k', v) :: rest => if String.eqb k k' then Some v else get k rest
  end.

(** [k in d] *)
Definition mem (k : string) (d : t) : bool :=
  match get k d with Some _ => true | None => false end.

(** [d[k]] *)
Definition getitem (k : string) (d : t) : result string :=
  match get k d with
  | Some v => Ok v
  | None => Raise (KeyError k)
  end.

(** [d[k] = v]: an existing key keeps its place, a new key goes last. *)
Fixpoint set (k v : string) (d : t) : t :=
  match d with
  | [] => [(k, v)]
  | (k', v') :: rest =>
      if String.eqb k k' then (k, v) :: rest else (k', v') :: set k v rest
  end.

Fixpoint remove (k : string) (d : t) : t :=
  match d with
  | [] => []
  | (k', v') :: rest =>
      if String.eqb k k' then rest else (k', v') :: remove k rest
  end.

(** [if k1 in d: d[k2] = d.pop(k1)] *)
Definition rename (k1 k2 : string) (d : t) : t :=
  match get k1 d with
  | Some v => set k2 v (remove k1 d)
  | None => d
  end.

End Dict.

(** ** Numbers and arrays *)

(** A Python number: an [int] or a [float]. *)
Inductive num : Type :=
| PyInt (z : Z)
| PyFloat (f : float).

(** [float(z)] for an int within the int64 range. *)
Definition float_of_int (z : Z) : float :=
  if z <? 0 then PrimFloat.opp (PrimFloat.of_uint63 (Uint63.of_Z (- z)))
  else PrimFloat.of_uint63 (Uint63.of_Z z).

Definition to_float (x : num) : float :=
  match x with
  | PyInt z => float_of_int z
  | PyFloat f => f
  end.

Definition is_int (x : num) : bool :=
  match x with PyInt _ => true | PyFloat _ => false end.

Definition to_int (x : num) : Z :=
  match x with PyInt z => z | PyFloat _ => 0 end.

(** Arithmetic of numpy's int64. *)
Definition wrap64 (z : Z) : Z := (z + 2 ^ 63) mod 2 ^ 64 - 2 ^ 63.

(** A two-dimensional numpy array, by rows: int64 when every entry it
    was built from is an int, float64 otherwise. *)
Inductive ndarray : Type :=
| IntArr (rows : list (list Z))
| FloatArr (rows : list (list float)).

(** [np.array(t)] for a tuple of pairs of numbers. *)
Definition np_array (t : list (num * num)) : ndarray :=
  if forallb (fun p => is_int p.1 && is_int p.2) t
  then IntArr (map (fun p => [to_int p.1; to_int p.2]) t)
  else FloatArr (map (fun p => [to_float p.1; to_float p.2]) t).

Definition float_rows (a : ndarray) : list (list float) :=
  match a with
  | IntArr rows => map (map float_of_int) rows
  | FloatArr rows => rows
  end.

(** One row of [np.dot(a, r)] for a row of two entries and a 2x2 [r];
    numpy refuses other shapes. *)
Definition dot_row_int (r : list (list Z)) (row : list Z) : result (list Z) :=
  match row, r with
  | [x; y], [[r00; r01]; [r10; r11]] =>
      Ok [wrap64 (wrap64 (x * r00) + wrap64 (y * r10));
          wrap64 (wrap64 (x * r01) + wrap64 (y * r11))]
  | _, _ => Raise ValueError
  end.

Definition dot_row_float (r : list (list float)) (row : list float)
  : result (list float) :=
  match row, r with
  | [x; y], [[r00; r01]; [r10; r11]] =>
      Ok [(x * r00 + y * r10)%float; (x * r01 + y * r11)%float]
  | _, _ => Raise ValueError
  end.

Definition np_dot (a r : ndarray) : result ndarray :=
  match a, r with
  | IntArr rows, IntArr m => IntArr <$> mapM (dot_row_int m) rows
  | _, _ => FloatArr <$> mapM (dot_row_float (float_rows r)) (float_rows a)
  end.

(** [seq[i]] for a non-negative index. *)
Definition index {A : Type} (l : list A) (i : nat) : result A :=
  match l !! i with
  | Some x => Ok x
  | None => Raise IndexError
  end.

(** [a[:, j]]: column [j], each entry with the dtype of the array. *)
Definition column (a : ndarray) (j : nat) : result (list num) :=
  match a with
  | IntArr rows => mapM (fun row => PyInt <$> index row j) rows
  | FloatArr rows => mapM (fun row => PyFloat <$> index row j) rows
  end.

(** [x == y] for two numbers of this module (an int is compared as the
    float it converts to, which is exact at their size). *)
Definition num_eqb (x y : num) : bool :=
  match x, y with
  | PyInt a, PyInt b => a =? b
  | _, _ => PrimFloat.eqb (to_float x) (to_float y)
  end.

(** [(x - y) * size] for two entries of one array and a Python float. *)
Definition scaled_difference (x y : num) (size : float) : float :=
  match x, y with
  | PyInt a, PyInt b => (float_of_int (wrap64 (a - b)) * size)%float
  | _, _ => ((to_float x - to_float y) * size)%float
  end.

(** [np.pi] *)
Definition np_pi : float := 0x1.921fb54442d18p+1%float.

(** What the module takes from outside: [float] applied to an option
    value, numpy's [cos] and [sin], and [lcapy.latex.format_label]. *)
Class Runtime : Type := {
  float_of_str : string -> result float;
  np_cos : float -> float;
  np_sin : float -> float;
  format_label : string -> string
}.

(** ** The schematic and its components *)

(** The classes defined by [class] statements. *)
Inductive pyclass : Type :=
| cCpt | cTransistor | cJFET | cMOSFET | cTwoPort | cTF1 | cTF | cK
| cOnePort | cVCS | cCCS | cOpamp | cFDOpamp | cSPDT | cLogic | cWire.

(** A class as [make] finds it: its [__name__], the [class] statement it
    descends from (which fixes its methods and coordinate tables), and
    the [tikz_cpt] attribute when [defcpt] or an ancestor set one. *)
Record klass : Type := {
  kname : string;
  kroot : pyclass;
  ktikz : option string
}.

(** A component. [Lname1] and [Lname2] are set by [K.__init__] only.
    [id_label], [value_label] and [default_label] are attributes that the
    schematic assigns after construction, absent until then; [_tcoords]
    is the cache of [tcoords], absent until first use. [has_sch] records
    that [self.sch] is not [None]; the state of that schematic is passed
    to the methods that read it. *)
Record Cpt : Type := {
  cls : klass;
  has_sch : bool;
  type : string;
  id : string;
  net : string;
  opts_string : string;
  nodes : list string;
  name : string;
  args : list string;
  opts : Dict.t;
  Lname1 : option string;
  Lname2 : option string;
  id_label : option string;
  value_label : option string;
  default_label : option string;
  _tcoords : option ndarray
}.

Definition classname (c : Cpt) : string := kname (cls c).

Definition set_opts (c : Cpt) (o : Dict.t) : Cpt :=
  {| cls := cls c; has_sch := has_sch c; type := type c; id := id c;
     net := net c; opts_string := opts_string c; nodes := nodes c;
     name := name c; args := args c; opts := o;
     Lname1 := Lname1 c; Lname2 := Lname2 c;
     id_label := id_label c; value_label := value_label c;
     default_label := default_label c; _tcoords := _tcoords c |}.

Definition set_tcoords (c : Cpt) (a : ndarray) : Cpt :=
  {| cls := cls c; has_sch := has_sch c; type := type c; id := id c;
     net := net c; opts_string := opts_string c; nodes := nodes c;
     name := name c; args := args c; opts := opts c;
     Lname1 := Lname1 c; Lname2 := Lname2 c;
     id_label := id_label c; value_label := value_label c;
     default_label := default_label c; _tcoords := Some a |}.

Definition set_Lnames (c : Cpt) (l1 l2 : string) : Cpt :=
  {| cls := cls c; has_sch := has_sch c; type := type c; id := id c;
     net := net c; opts_string := opts_string c; nodes := nodes c;
     name := name c; args := args c; opts := opts c;
     Lname1 := Some l1; Lname2 := Some l2;
     id_label := id_label c; value_label := value_label c;
     default_label := default_label c; _tcoords := _tcoords c |}.

(** [self.attr] for an attribute that may not have been assigned. *)
Definition getattr {A : Type} (attr : string) (v : option A) : result A :=
  match v with
  | Some a => Ok a
  | None => Raise (AttributeError attr)
  end.

(** A node of the schematic, as far as this module reads it: the [port]
    attribute and the [visible(draw_nodes)] method. *)
Record Node : Type := {
  port : bool;
  visible : bool -> bool
}.

Module Sch.

(** The owning schematic: the counters of automatic names, the
    components by name, the nodes by name. *)
Record t : Type := {
  anon : gmap string Z;
  elements : gmap string Cpt;
  nodes : gmap string Node
}.

Definition set_anon (s : t) (a : gmap string Z) : t :=
  {| anon := a; elements := elements s; nodes := nodes s |}.

Definition set_elements (s : t) (e : gmap string Cpt) : t :=
  {| anon := anon s; elements := e; nodes := nodes s |}.

End Sch.

(** [d[k]] for a dictionary of the schematic. *)
Definition getitem {A : Type} (k : string) (d : gmap string A) : result A :=
  match d !! k with
  | Some v => Ok v
  | None => Raise (KeyError k)
  end.

(** ** Construction and automatic names *)

(** [Cpt.anon]: the next automatic number for [cpt_type], as text. *)
Definition anon (sch : Sch.t) (cpt_type : string) : string * Sch.t :=
  let a0 :=
    match Sch.anon sch !! cpt_type with
    | None => <[cpt_type := 0]> (Sch.anon sch)
    | Some _ => Sch.anon sch
    end in
  let a1 := <[cpt_type := default 0 (a0 !! cpt_type) + 1]> a0 in
  (str (default 0 (a1 !! cpt_type)), Sch.set_anon sch a1).

(** [Cpt.__init__]. The schematic is [None] or the state of the owner;
    the result carries the owner's new state. *)
Definition Cpt_init (k : klass) (sch : option Sch.t)
    (cpt_type cpt_id string_ opts_string : string)
    (nodes args : list string) : Cpt * option Sch.t :=
  let '(cpt_id', sch') :=
    match sch with
    | Some s =>
        if String.eqb cpt_id ""
        then let '(n, s') := anon s cpt_type in ("@" +:+ n, Some s')
        else (cpt_id, sch)
    | None => (cpt_id, sch)
    end in
  ({| cls := k; has_sch := bool_decide (is_Some sch);
      type := cpt_type; id := cpt_id;
      net := split_head ";" string_; opts_string := opts_string;
      nodes := nodes; name := cpt_type +:+ cpt_id'; args := args;
      opts := Dict.empty;
      Lname1 := None; Lname2 := None;
      id_label := None; value_label := None; default_label := None;
      _tcoords := None |},
   sch').

(** [K.__init__]: the first two arguments name the coupled inductors. *)
Definition K_init (k : klass) (sch : option Sch.t)
    (cpt_type cpt_id string_ opts_string : string)
    (nodes args : list string) : result (Cpt * option Sch.t) :=
  l1 ← index args 0;
  l2 ← index args 1;
  let '(c, sch') :=
    Cpt_init k sch cpt_type cpt_id string_ opts_string nodes (drop 2 args) in
  Ok (set_Lnames c l1 l2, sch').

(** ** The registry of classes *)

Definition static (n : string) (r : pyclass) : string * klass :=
  (n, {| kname := n; kroot := r; ktikz := None |}).

(** The attributes of the module that are classes. *)
Definition module_classes : gmap string klass :=
  list_to_map
    [static "Cpt" cCpt; static "Transistor" cTransistor; static "JFET" cJFET;
     static "MOSFET" cMOSFET; static "TwoPort" cTwoPort; static "TF1" cTF1;
     static "TF" cTF; static "K" cK; static "OnePort" cOnePort;
     static "VCS" cVCS; static "CCS" cCCS; static "Opamp" cOpamp;
     static "FDOpamp" cFDOpamp; static "SPDT" cSPDT; static "Logic" cLogic;
     static "Wire" cWire].

(** The [base] argument of [defcpt]: a class or the name of a class
    created earlier. *)
Inductive base_ref : Type :=
| ByClass (r : pyclass)
| ByName (n : string).

(** [defcpt(name, base, docstring, cpt)] on the [classes] dictionary. *)
Definition defcpt (classes : gmap string klass) (name : string)
    (base : base_ref) (cpt : option string) : result (gmap string klass) :=
  b ← match base with
      | ByClass r => Ok {| kname := ""; kroot := r; ktikz := None |}
      | ByName n => getitem n classes
      end;
  let newclass :=
    {| kname := name; kroot := kroot b;
       ktikz := match cpt with Some t => Some t | None => ktikz b end |} in
  Ok (<[name := newclass]> classes).

(** The calls of [defcpt] at the end of the module, in order. *)
Definition definitions : list (string * base_ref * option string) :=
  [("C", ByClass cOnePort, Some "C");
   ("D", ByClass cOnePort, Some "D");
   ("Dled", ByName "D", Some "leD");
   ("Dphoto", ByName "D", Some "pD");
   ("Dschottky", ByName "D", Some "zD");
   ("Dtunnel", ByName "D", Some "tD");
   ("Dzener", ByName "D", Some "zD");
   ("E", ByClass cVCS, Some "american controlled voltage source");
   ("Eopamp", ByClass cOpamp, None);
   ("Efdopamp", ByClass cFDOpamp, None);
   ("F", ByClass cVCS, Some "american controlled current source");
   ("G", ByClass cCCS, Some "american controlled current source");
   ("H", ByClass cCCS, Some "american controlled voltage source");
   ("I", ByClass cOnePort, Some "I");
   ("sI", ByClass cOnePort, Some "I");
   ("Isin", ByName "I", Some "sI");
   ("Idc", ByName "I", Some "I");
   ("Iac", ByName "I", Some "sI");
   ("J", ByClass cJFET, Some "njfet");
   ("Jnjf", ByName "J", Some "njfet");
   ("Jpjf", ByName "J", Some "pjfet");
   ("L", ByClass cOnePort, Some "L");
   ("M", ByClass cMOSFET, Some "nmos");
   ("Mnmos", ByName "M", Some "nmos");
   ("Mpmos", ByName "M", Some "pmos");
   ("O", ByClass cOnePort, Some "open");
   ("P", ByClass cOnePort, Some "open");
   ("Q", ByClass cTransistor, Some "npn");
   ("Qpnp", ByName "Q", Some "pnp");
   ("Qnpn", ByName "Q", Some "npn");
   ("R", ByClass cOnePort, Some "R");
   ("SW", ByClass cOnePort, Some "closing switch");
   ("SWno", ByName "SW", Some "closing switch");
   ("SWnc", ByName "SW", Some "opening switch");
   ("SWpush", ByName "SW", Some "push button");
   ("SWspdt", ByClass cSPDT, Some "spdt");
   ("TF", ByClass cTwoPort, Some "transformer");
   ("TP", ByClass cTwoPort, Some "");
   ("Ubuffer", ByClass cLogic, Some "buffer");
   ("Uinverter", ByClass cLogic, Some "american not port");
   ("V", ByClass cOnePort, Some "V");
   ("sV", ByClass cOnePort, Some "V");
   ("Vsin", ByName "V", Some "sV");
   ("Vdc", ByName "V", Some "V");
   ("Vstep", ByName "V", Some "V");
   ("Vac", ByName "V", Some "sV");
   ("W", ByClass cWire, Some "short");
   ("Y", ByClass cOnePort, Some "european resistor");
   ("Z", ByClass cOnePort, Some "european resistor")].

(** The [classes] dictionary once the module is loaded. *)
Definition classes : gmap string klass :=
  match
    foldl (fun acc d => m ← acc; defcpt m d.1.1 d.1.2 d.2) (Ok ∅) definitions
  with
  | Ok m => m
  | Raise _ => ∅
  end.

(** The names the module binds to something that is not a component
    class: what it imports, [module], [classes] and [defcpt]. None of
    them can be called the way [make] calls a class, with six arguments
    or more: the modules [np], [sys] and [module], the dictionary
    [classes] and the feature [print_function] are not callable,
    [defcpt] has four parameters, and [latex_str], [format_label] and
    [Pos] take the one or two arguments this file gives them. *)
Definition module_others : list string :=
  ["print_function"; "latex_str"; "format_label"; "Pos"; "np"; "sys";
   "module"; "classes"; "defcpt"].

(** The variables a module has before its first statement runs, as
    [__name__] in [sys.modules[__name__]]; strings, [None] or the
    builtins, none of them callable. What else the interpreter lets a
    module object answer to (the methods of its type, variables of later
    versions) has a name that begins with two underscores too; see
    [reserved]. *)
Definition module_variables : list string :=
  ["__name__"; "__doc__"; "__file__"; "__package__"; "__builtins__"].

(** What an attribute of the module holds. *)
Inductive attribute : Type :=
| AClass (k : klass)
| AMake
| AOther.

(** [getattr(module, name)] *)
Definition module_getattr (name : string) : result attribute :=
  match module_classes !! name with
  | Some k => Ok (AClass k)
  | None =>
      if String.eqb name "make" then Ok AMake
      else if in_tuple name (module_others ++ module_variables)
      then Ok AOther
      else Raise (AttributeError name)
  end.

(** What [make] instantiates: the attribute of the module with that
    name, whatever it is, and the entry of [classes] when the module has
    no such attribute. *)
Definition find_class (classname : string) : result attribute :=
  match module_getattr classname with
  | Ok a => Ok a
  | Raise _ => AClass <$> getitem classname classes
  end.

(** [make(classname, parent, cpt_type, cpt_id, string, opts_string, nodes,
    *args)]. What it finds is called with [parent] and the six arguments
    after it. Found under its own name, [make] is one argument short
    when [args] is empty; otherwise it takes [parent] for the class
    name, which is not a string, so that [getattr] fails, and not a key
    of [classes]. *)
Definition make (classname : string) (parent : option Sch.t)
    (cpt_type cpt_id string_ opts_string : string)
    (nodes args : list string) : result (Cpt * option Sch.t) :=
  newclass ← find_class classname;
  match newclass with
  | AClass k =>
      match kroot k with
      | cK => K_init k parent cpt_type cpt_id string_ opts_string nodes args
      | _ => Ok (Cpt_init k parent cpt_type cpt_id string_ opts_string
                   nodes args)
      end
  | AMake =>
      match args with
      | [] => Raise TypeError
      | _ :: _ => Raise KeyError_object
      end
  | AOther => Raise TypeError
  end.

(** ** Keys of the option dictionary *)

Definition voltage_keys : list string :=
  ["v"; "v_"; "v^"; "v_>"; "v_<"; "v^>"; "v^<"].

Definition current_keys : list string :=
  ["i"; "i_"; "i^"; "i_>"; "i_<"; "i^>"; "i^<"; "i>_"; "i<_"; "i>^"; "i<^"].

Definition label_keys : list string := ["l"; "l_"; "l^"].

Definition misc_keys : list string :=
  ["left"; "right"; "up"; "down"; "rotate"; "size"; "dir"; "mirror"; "scale"].

(** ** Orientation *)

Definition down (c : Cpt) : result bool :=
  d ← Dict.getitem "dir" (opts c); Ok (String.eqb d "down").

Definition up (c : Cpt) : result bool :=
  d ← Dict.getitem "dir" (opts c); Ok (String.eqb d "up").

Definition left (c : Cpt) : result bool :=
  d ← Dict.getitem "dir" (opts c); Ok (String.eqb d "left").

Definition right (c : Cpt) : result bool :=
  d ← Dict.getitem "dir" (opts c); Ok (String.eqb d "right").

Definition horizontal (c : Cpt) : result bool :=
  d ← Dict.getitem "dir" (opts c); Ok (in_tuple d ["left"; "right"]).

Definition vertical (c : Cpt) : result bool :=
  d ← Dict.getitem "dir" (opts c); Ok (in_tuple d ["left"; "down"]).

Definition mirror (c : Cpt) : bool := Dict.mem "mirror" (opts c).

Definition variable (c : Cpt) : bool := Dict.mem "variable" (opts c).

(** The table of [Cpt.R]. *)
Definition Rdict : list (Z * list (list Z)) :=
  [(0, [[1; 0]; [0; 1]]);
   (90, [[0; 1]; [-1; 0]]);
   (180, [[-1; 0]; [0; -1]]);
   (-180, [[-1; 0]; [0; -1]]);
   (-90, [[0; -1]; [1; 0]])].

(** A number is a key of a dictionary of ints when it equals one. *)
Definition key_matches (a : num) (k : Z) : bool :=
  match a with
  | PyInt z => z =? k
  | PyFloat f => PrimFloat.eqb f (float_of_int k)
  end.

Definition Rdict_get (a : num) : option (list (list Z)) :=
  snd <$> List.find (fun kv => key_matches a kv.1) Rdict.

Section Geometry.
Context {rt : Runtime}.

(** Component size between its nodes. *)
Definition size (c : Cpt) : result float :=
  match Dict.get "size" (opts c) with
  | Some v => float_of_str v
  | None => Ok 1.0%float
  end.

Definition scale (c : Cpt) : result float :=
  match Dict.get "scale" (opts c) with
  | Some v => float_of_str v
  | None => Ok 1.0%float
  end.

(** Rotation angle, in degrees. *)
Definition angle (c : Cpt) : result num :=
  base ← (r ← right c;
          if r : bool then Ok 0 else
          d ← down c;
          if d : bool then Ok (-90) else
          l ← left c;
          if l : bool then Ok 180 else
          u ← up c;
          if u : bool then Ok 90 else Raise ValueError);
  if Dict.mem "rotate" (opts c)
  then v ← Dict.getitem "rotate" (opts c);
       f ← float_of_str v;
       Ok (PyFloat (float_of_int base + f)%float)
  else Ok (PyInt base).

(** Rotation matrix. *)
Definition R (c : Cpt) : result ndarray :=
  a ← angle c;
  match Rdict_get a with
  | Some m => Ok (IntArr m)
  | None =>
      let t := (to_float a / 180.0 * np_pi)%float in
      Ok (FloatArr [[np_cos t; np_sin t];
                    [PrimFloat.opp (np_sin t); np_cos t]])
  end.

End Geometry.

(** ** Node sets *)

Definition Cpt_vnodes (c : Cpt) : result (list string) := Ok (nodes c).

Definition VCS_vnodes (c : Cpt) : result (list string) :=
  Ok (take 2 (nodes c)).

Definition Opamp_vnodes (c : Cpt) : result (list string) :=
  n0 ← index (nodes c) 0; Ok (n0 :: drop 2 (nodes c)).

(** The options that turn a wire into an implicit connection. *)
Definition implicit (c : Cpt) : bool :=
  Dict.mem "implicit" (opts c) || Dict.mem "ground" (opts c)
  || Dict.mem "sground" (opts c).

Definition Wire_vnodes (c : Cpt) : result (list string) :=
  if implicit c then n0 ← index (nodes c) 0; Ok [n0] else Ok (nodes c).

(** Visible nodes, by the class of the component. *)
Definition vnodes (c : Cpt) : result (list string) :=
  match kroot (cls c) with
  | cVCS => VCS_vnodes c
  | cOpamp => Opamp_vnodes c
  | cWire => Wire_vnodes c
  | _ => Cpt_vnodes c
  end.

(** [K.dnodes]: the nodes of the two inductors, which must already be
    among the elements of the schematic. *)
Definition K_dnodes (sch : Sch.t) (c : Cpt) : result (list string) :=
  n1 ← getattr "Lname1" (Lname1 c);
  L1 ← getitem n1 (Sch.elements sch);
  n2 ← getattr "Lname2" (Lname2 c);
  L2 ← getitem n2 (Sch.elements sch);
  Ok (nodes L1 ++ nodes L2)%list.

(** Nodes used to construct the schematic, by the class of the
    component. *)
Definition dnodes (sch : Sch.t) (c : Cpt) : result (list string) :=
  match kroot (cls c) with
  | cK => K_dnodes sch c
  | _ => vnodes c
  end.

(** ** Local coordinates *)

Definition Transistor_npos : list (num * num) :=
  [(PyInt 1, PyFloat 1.5); (PyInt 0, PyFloat 0.75); (PyInt 1, PyInt 0)].
Definition Transistor_ppos : list (num * num) :=
  [(PyInt 1, PyInt 0); (PyInt 0, PyFloat 0.75); (PyInt 1, PyFloat 1.5)].

Definition JFET_npos : list (num * num) :=
  [(PyInt 1, PyFloat 1.5); (PyInt 0, PyFloat 0.48); (PyInt 1, PyInt 0)].
Definition JFET_ppos : list (num * num) :=
  [(PyInt 1, PyInt 0); (PyInt 0, PyFloat 1.02); (PyInt 1, PyFloat 1.5)].

Definition MOSFET_npos : list (num * num) :=
  [(PyFloat 0.85, PyFloat 1.52); (PyFloat (-0.25), PyFloat 0.76);
   (PyFloat 0.85, PyInt 0)].
Definition MOSFET_ppos : list (num * num) :=
  [(PyFloat 0.85, PyInt 0); (PyFloat (-0.25), PyFloat 0.76);
   (PyFloat 0.85, PyFloat 1.52)].

Definition Opamp_ppos : list (num * num) :=
  [(PyFloat 2.4, PyFloat 0.0); (PyInt 0, PyFloat 0.5);
   (PyInt 0, PyFloat (-0.5))].
Definition Opamp_npos : list (num * num) :=
  [(PyFloat 2.4, PyFloat 0.0); (PyInt 0, PyFloat (-0.5));
   (PyInt 0, PyFloat 0.5)].

Definition FDOpamp_npos : list (num * num) :=
  [(PyFloat 2.05, PyInt 1); (PyFloat 2.05, PyInt 0); (PyInt 0, PyInt 0);
   (PyInt 0, PyInt 1)].
Definition FDOpamp_ppos : list (num * num) :=
  [(PyFloat 2.05, PyInt (-1)); (PyFloat 2.05, PyInt 0); (PyInt 0, PyInt 0);
   (PyInt 0, PyInt (-1))].

(** [Transistor.coords], on the [npos] and [ppos] of the class. *)
Definition Transistor_coords (npos ppos : list (num * num)) (c : Cpt)
  : list (num * num) :=
  if in_tuple (classname c) ["Qpnp"; "Mpmos"; "Jpjf"]
  then (if mirror c then npos else ppos)
  else (if mirror c then ppos else npos).

Definition TwoPort_coords : list (num * num) :=
  [(PyInt 1, PyInt 1); (PyInt 1, PyInt 0); (PyInt 0, PyInt 1);
   (PyInt 0, PyInt 0)].

Definition OnePort_coords : list (num * num) :=
  [(PyInt 0, PyInt 0); (PyInt 1, PyInt 0)].

Definition Opamp_coords (c : Cpt) : list (num * num) :=
  if mirror c then Opamp_npos else Opamp_ppos.

Definition FDOpamp_coords (c : Cpt) : list (num * num) :=
  if mirror c then FDOpamp_npos else FDOpamp_ppos.

Definition SPDT_coords : list (num * num) :=
  [(PyInt 0, PyFloat 0.15); (PyFloat 0.6, PyFloat 0.3);
   (PyFloat 0.6, PyInt 0)].

Definition Logic_coords : list (num * num) :=
  [(PyInt 0, PyInt 0); (PyFloat 0.75, PyInt 0)].

Definition Wire_coords (c : Cpt) : list (num * num) :=
  if implicit c then [(PyInt 0, PyInt 0)]
  else [(PyInt 0, PyInt 0); (PyInt 1, PyInt 0)].

(** Coordinates of each of the nodes, by the class of the component. *)
Definition coords (c : Cpt) : result (list (num * num)) :=
  match kroot (cls c) with
  | cCpt => Raise NotImplementedError
  | cTransistor => Ok (Transistor_coords Transistor_npos Transistor_ppos c)
  | cJFET => Ok (Transistor_coords JFET_npos JFET_ppos c)
  | cMOSFET => Ok (Transistor_coords MOSFET_npos MOSFET_ppos c)
  | cTwoPort | cTF1 | cTF | cK => Ok TwoPort_coords
  | cOnePort | cVCS | cCCS => Ok OnePort_coords
  | cOpamp => Ok (Opamp_coords c)
  | cFDOpamp => Ok (FDOpamp_coords c)
  | cSPDT => Ok SPDT_coords
  | cLogic => Ok Logic_coords
  | cWire => Ok (Wire_coords c)
  end.

(** ** Layout constraints *)

(** The calls a component makes on a [graphs] object. *)
Inductive call : Type :=
| Link (n1 n2 : string)
| Add (n1 n2 : string) (value : float).

Section Layout.
Context {rt : Runtime}.

(** Transformed coordinates for each of the nodes, computed once and
    kept in [_tcoords]. *)
Definition tcoords (c : Cpt) : result (ndarray * Cpt) :=
  match _tcoords c with
  | Some t => Ok (t, c)
  | None =>
      xy ← coords c;
      r ← R c;
      t ← np_dot (np_array xy) r;
      Ok (t, set_tcoords c t)
  end.

Definition xvals (c : Cpt) : result (list num * Cpt) :=
  '(t, c') ← tcoords c; v ← column t 0; Ok (v, c').

Definition yvals (c : Cpt) : result (list num * Cpt) :=
  '(t, c') ← tcoords c; v ← column t 1; Ok (v, c').

(** The inner loop of [xlink] and [ylink]: [n1] at position [m1] against
    the nodes after it, the first of them at position [m2]. *)
Fixpoint link_from (vals : list num) (m1 : nat) (n1 : string) (m2 : nat)
    (rest : list string) (graphs : list call) : result (list call) :=
  match rest with
  | [] => Ok graphs
  | n2 :: rest' =>
      v2 ← index vals m2;
      v1 ← index vals m1;
      link_from vals m1 n1 (S m2) rest'
        (if num_eqb v2 v1 then graphs ++ [Link n1 n2] else graphs)
  end.

(** The outer loop, over the nodes from position [m1] on. *)
Fixpoint link_all (vals : list num) (m1 : nat) (ns : list string)
    (graphs : list call) : result (list call) :=
  match ns with
  | [] => Ok graphs
  | n1 :: rest =>
      g ← link_from vals m1 n1 (S m1) rest graphs;
      link_all vals (S m1) rest g
  end.

Fixpoint place_from (vals : list num) (size : float) (m1 : nat) (n1 : string)
    (m2 : nat) (rest : list string) (graphs : list call)
  : result (list call) :=
  match rest with
  | [] => Ok graphs
  | n2 :: rest' =>
      v2 ← index vals m2;
      v1 ← index vals m1;
      place_from vals size m1 n1 (S m2) rest'
        (graphs ++ [Add n1 n2 (scaled_difference v2 v1 size)])
  end.

Fixpoint place_all (vals : list num) (size : float) (m1 : nat)
    (ns : list string) (graphs : list call) : result (list call) :=
  match ns with
  | [] => Ok graphs
  | n1 :: rest =>
      g ← place_from vals size m1 n1 (S m1) rest graphs;
      place_all vals size (S m1) rest g
  end.

Definition xlink (sch : Sch.t) (c : Cpt) (graphs : list call)
  : result (list call * Cpt) :=
  '(vals, c') ← xvals c;
  ns ← dnodes sch c';
  g ← link_all vals 0 ns graphs;
  Ok (g, c').

Definition ylink (sch : Sch.t) (c : Cpt) (graphs : list call)
  : result (list call * Cpt) :=
  '(vals, c') ← yvals c;
  ns ← dnodes sch c';
  g ← link_all vals 0 ns graphs;
  Ok (g, c').

Definition xplace (sch : Sch.t) (c : Cpt) (graphs : list call)
  : result (list call * Cpt) :=
  sz ← size c;
  '(vals, c') ← xvals c;
  ns ← dnodes sch c';
  g ← place_all vals sz 0 ns graphs;
  Ok (g, c').

Definition yplace (sch : Sch.t) (c : Cpt) (graphs : list call)
  : result (list call * Cpt) :=
  sz ← size c;
  '(vals, c') ← yvals c;
  ns ← dnodes sch c';
  g ← place_all vals sz 0 ns graphs;
  Ok (g, c').

End Layout.

(** ** Drawing *)

(** The keyword arguments of [draw], each with its default. *)
Record kwargs : Type := {
  draw_nodes : bool;
  label_ids : bool;
  label_values : bool
}.

Definition default_kwargs : kwargs :=
  {| draw_nodes := true; label_ids := true; label_values := true |}.

Definition _node_str (node1 node2 : Node) (kw : kwargs) : string :=
  let s1 :=
    if visible node1 (draw_nodes kw)
    then (if port node1 then "o" else "*") else "" in
  let s2 := s1 +:+ "-" in
  let s3 :=
    if visible node2 (draw_nodes kw)
    then s2 +:+ (if port node2 then "o" else "*") else s2 in
  if String.eqb s3 "-" then "" else s3.

(** The source types, whose nodes a one-port swaps. *)
Definition source_types : list string := ["V"; "I"; "E"; "F"; "G"; "H"].

(** [n1, n2 = seq] *)
Definition unpack2 (l : list string) : result (string * string) :=
  match l with
  | [a; b] => Ok (a, b)
  | _ => Raise ValueError
  end.

Section Drawing.
Context {rt : Runtime}.

Definition fmt (kv : string * string) : string :=
  kv.1 +:+ "=" +:+ format_label kv.2.

Definition opts_str (c : Cpt) (choices : list string) : string :=
  join "," (map fmt (List.filter (fun kv => in_tuple kv.1 choices) (opts c))).

Definition voltage_str (c : Cpt) : string := opts_str c voltage_keys.
Definition current_str (c : Cpt) : string := opts_str c current_keys.
Definition label_str (c : Cpt) : string := opts_str c label_keys.

Definition args_str (c : Cpt) : string :=
  join ","
    (map fmt
       (List.filter
          (fun kv =>
             negb (in_tuple kv.1
                     (voltage_keys ++ current_keys ++ label_keys ++ misc_keys)%list))
          (opts c))).

(** [Cpt.label] *)
Definition label (c : Cpt) (kw : kwargs) : result string :=
  dflt ← (if label_values kw then getattr "default_label" (default_label c)
          else Ok "");
  let s :=
    join "," (map (fun kv => format_label kv.2)
                (List.filter (fun kv => in_tuple kv.1 ["l"]) (opts c))) in
  Ok (if String.eqb s "" then dflt else s).

(** The label a one-port gets when no label option is given. *)
Definition OnePort_default_label (c : Cpt) (kw : kwargs) (label_pos : string)
  : result string :=
  both ←
    (if label_ids kw && label_values kw then
       i ← getattr "id_label" (id_label c);
       if negb (String.eqb i "") then
         v ← getattr "value_label" (value_label c);
         Ok (negb (String.eqb v ""))
       else Ok false
     else Ok false);
  if both : bool then
    i ← getattr "id_label" (id_label c);
    v ← getattr "value_label" (value_label c);
    Ok ("l" +:+ label_pos +:+ "={" +:+ i +:+ "=" +:+ v +:+ "}")
  else
    ids ←
      (if label_ids kw then
         i ← getattr "id_label" (id_label c); Ok (negb (String.eqb i ""))
       else Ok false);
    if ids : bool then
      i ← getattr "id_label" (id_label c);
      Ok ("l" +:+ label_pos +:+ "=" +:+ i)
    else
      vals ←
        (if label_values kw then
           v ← getattr "value_label" (value_label c);
           Ok (negb (String.eqb v ""))
         else Ok false);
      if vals : bool then
        v ← getattr "value_label" (value_label c);
        Ok ("l" +:+ label_pos +:+ "=" +:+ v)
      else Ok "".

(** The options of a one-port once [draw] has qualified the generic
    voltage, current and label keys with their positions. *)
Definition qualify_opts (label_pos voltage_pos : string) (o : Dict.t) : Dict.t :=
  let o := Dict.rename "v" ("v" +:+ voltage_pos) o in
  let o := Dict.rename "vr" ("v" +:+ voltage_pos +:+ ">") o in
  let current_pos := label_pos in
  let o := Dict.rename "i" ("i" +:+ current_pos) o in
  let o := Dict.rename "ir" ("i" +:+ current_pos +:+ "<") o in
  Dict.rename "l" ("l" +:+ label_pos) o.

(** The drawing command of a one-port, from the values it is formatted
    with. *)
Definition command (n1 tikz_cpt label_str args_str node_str name n2 : string)
  : string :=
  "  \draw (" +:+ n1 +:+ ") to [align=right," +:+ tikz_cpt +:+ ","
  +:+ label_str +:+ "," +:+ args_str +:+ "," +:+ node_str +:+ ",n=" +:+ name
  +:+ "] (" +:+ n2 +:+ ");" +:+ newline.

(** [OnePort.draw]: the command text and the component with its options
    rewritten. *)
Definition OnePort_draw (sch : Sch.t) (c : Cpt) (kw : kwargs)
  : result (string * Cpt) :=
  ns ← dnodes sch c;
  '(n1, n2) ← unpack2 ns;
  tikz ← getattr "tikz_cpt" (ktikz (cls c));
  let tikz_cpt :=
    if String.eqb (type c) "R" && variable c then "vR" else tikz in
  '(n1, n2, label_pos, voltage_pos) ←
    (if in_tuple (type c) source_types then
       h ← horizontal c;
       Ok (if h : bool then (n2, n1, "^", "_") else (n2, n1, "_", "^"))
     else
       v ← vertical c;
       Ok (if v : bool then (n1, n2, "^", "_") else (n1, n2, "_", "^")));
  let c' := set_opts c (qualify_opts label_pos voltage_pos (opts c)) in
  node1 ← getitem n1 (Sch.nodes sch);
  node2 ← getitem n2 (Sch.nodes sch);
  let node_str := _node_str node1 node2 kw in
  let args := join "," [args_str c'; voltage_str c'; current_str c'] in
  dflt ← OnePort_default_label c' kw label_pos;
  let lbl := if String.eqb (label_str c') "" then dflt else label_str c' in
  Ok (command n1 tikz_cpt lbl args node_str (name c') n2, c').

End Drawing.

(** ** Histories of a schematic *)

(** What a schematic asks of this module over time: it constructs
    components, files each under its name, and may drop a component
    again. The schematic is outside this module; a history only fixes
    the order of the calls and what happens to [elements] between them. *)
Inductive event : Type :=
| New (k : klass) (cpt_type cpt_id string_ opts_string : string)
      (nodes args : list string)
| Remove (name : string).

Fixpoint run (sch : Sch.t) (evs : list event) : list Cpt * Sch.t :=
  match evs with
  | [] => ([], sch)
  | New k cpt_type cpt_id string_ opts_string nodes args :: rest =>
      let '(c, sch') :=
        Cpt_init k (Some sch) cpt_type cpt_id string_ opts_string nodes args in
      let s := default sch sch' in
      let '(cs, s') :=
        run (Sch.set_elements s (<[name c := c]> (Sch.elements s))) rest in
      (c :: cs, s')
  | Remove n :: rest =>
      run (Sch.set_elements sch (delete n (Sch.elements sch))) rest
  end.

(** The names of the components of type [t] that were constructed
    without an id, in the order of construction. *)
Definition auto_names (t : string) (cs : list Cpt) : list string :=
  map name
    (List.filter (fun c => String.eqb (type c) t && String.eqb (id c) "") cs).

(** The name of the [i]-th automatically named component of type [t]. *)
Definition auto_name (t : string) (i : nat) : string :=
  t +:+ "@" +:+ str (Z.of_nat i).

(** ** The orientation table of the specification *)

(** The base angle the specification gives for each orientation:
    right 0, down -90, left 180, up 90. *)
Definition spec_angle (d : string) : option Z :=
  snd <$> List.find (fun p => String.eqb d p.1)
            [("right", 0); ("down", -90); ("left", 180); ("up", 90)].

(** The four cardinal values of the orientation option. *)
Definition cardinal (d : string) : bool :=
  in_tuple d ["right"; "down"; "left"; "up"].

(** Cosine and sine of a whole number of quarter turns, in degrees. *)
Definition cosd (a : Z) : Z :=
  match a mod 360 with 0 => 1 | 180 => -1 | _ => 0 end.

Definition sind (a : Z) : Z :=
  match a mod 360 with 90 => 1 | 270 => -1 | _ => 0 end.

(** The rotation matrix [[cos t, sin t], [-sin t, cos t]] at such an
    angle. *)
Definition rotation (a : Z) : list (list Z) :=
  [[cosd a; sind a]; [- sind a; cosd a]].

(** A 2x2 integer matrix whose rows are orthonormal. *)
Definition orthogonal (m : list (list Z)) : Prop :=
  match m with
  | [[a; b]; [c; d]] =>
      a * a + b * b = 1 /\ c * c + d * d = 1 /\ a * c + b * d = 0
  | _ => False
  end.

(** ** Reflections of a set of points *)

(** [-x] *)
Definition neg (x : num) : num :=
  match x with
  | PyInt z => PyInt (- z)
  | PyFloat f => PyFloat (PrimFloat.opp f)
  end.

(** [h - x] for a float [h]. *)
Definition minus_from (h : float) (x : num) : num :=
  PyFloat (h - to_float x)%float.

(** The points with the y-coordinate negated. *)
Definition negate_y (xy : list (num * num)) : list (num * num) :=
  map (fun p => (p.1, neg p.2)) xy.

(** The points reflected in the horizontal line at height [h / 2]. *)
Definition reflect_y (h : float) (xy : list (num * num)) : list (num * num) :=
  map (fun p => (p.1, minus_from h p.2)) xy.

(** [t1 == t2] for two tuples of pairs of numbers. *)
Fixpoint same_points (t1 t2 : list (num * num)) : bool :=
  match t1, t2 with
  | [], [] => true
  | p :: r1, q :: r2 =>
      num_eqb p.1 q.1 && num_eqb p.2 q.2 && same_points r1 r2
  | _, _ => false
  end.

(** The height of the outline of a transistor: the distance between its
    two outer terminals. *)
Definition outline_height (r : pyclass) : float :=
  match r with
  | cMOSFET => 1.52%float
  | _ => 1.5%float
  end.

(** ** The pairs of nodes behind the layout constraints *)

(** Positions [i] before [j] among the drawn nodes [ns], with the nodes
    there and their coordinates on one axis. *)
Definition pair_at (ns : list string) (vals : list num) (i j : nat)
    (a b : string) (vi vj : num) : Prop :=
  (i < j)%nat /\ ns !! i = Some a /\ ns !! j = Some b
  /\ vals !! i = Some vi /\ vals !! j = Some vj.

(** The calls [calls] are one [link] for each pair of nodes whose
    coordinates coincide, and nothing else. *)
Definition links_coinciding (ns : list string) (vals : list num)
    (calls : list call) : Prop :=
  forall x, In x calls <->
    exists i j a b vi vj,
      pair_at ns vals i j a b vi vj /\ num_eqb vj vi = true /\ x = Link a b.


(** The common shape of the loops of [xlink], [ylink], [xplace] and
    [yplace]: each node against the nodes after it, [emit] giving the
    calls made for one pair. *)
Fixpoint visit_from (emit : string -> string -> num -> num -> list call)
    (vals : list num) (m1 : nat) (n1 : string) (m2 : nat)
    (rest : list string) (graphs : list call) : result (list call) :=
  match rest with
  | [] => Ok graphs
  | n2 :: rest' =>
      v2 ← index vals m2;
      v1 ← index vals m1;
      visit_from emit vals m1 n1 (S m2) rest' (graphs ++ emit n1 n2 v1 v2)%list
  end.

Fixpoint visit_all (emit : string -> string -> num -> num -> list call)
    (vals : list num) (m1 : nat) (ns : list string) (graphs : list call)
  : result (list call) :=
  match ns with
  | [] => Ok graphs
  | n1 :: rest =>
      g ← visit_from emit vals m1 n1 (S m1) rest graphs;
      visit_all emit vals (S m1) rest g
  end.

Definition emit_link (n1 n2 : string) (v1 v2 : num) : list call :=
  if num_eqb v2 v1 then [Link n1 n2] else [].

Definition emit_place (size : float) (n1 n2 : string) (v1 v2 : num)
  : list call :=
  [Add n1 n2 (scaled_difference v2 v1 size)].

(** ** The label of a one-port, as the specification words it *)

(** The label options a component carries. *)
Definition label_options (c : Cpt) : Dict.t :=
  List.filter (fun kv => in_tuple kv.1 label_keys) (opts c).

(** The default label: id and value when both are shown and neither is
    empty, else the id, else the value, else nothing; written as the
    circuitikz option [l_] or [l^] that carries it. *)
Definition spec_default_label (kw : kwargs) (label_pos il vl : string)
  : string :=
  let shown s := negb (String.eqb s "") in
  if label_ids kw && label_values kw && shown il && shown vl
  then "l" +:+ label_pos +:+ "={" +:+ il +:+ "=" +:+ vl +:+ "}"
  else if label_ids kw && shown il then "l" +:+ label_pos +:+ "=" +:+ il
  else if label_values kw && shown vl then "l" +:+ label_pos +:+ "=" +:+ vl
  else "".

(** The side of the label: sources drawn horizontally and other
    one-ports drawn to the left or downwards have it on the [^] side. *)
Definition label_side (c : Cpt) (d : string) : string :=
  if (if in_tuple (type c) source_types
      then in_tuple d ["left"; "right"]
      else in_tuple d ["left"; "down"])
  then "^" else "_".

Definition voltage_side (c : Cpt) (d : string) : string :=
  if String.eqb (label_side c d) "^" then "_" else "^".

(** ** Sample schematics *)

(** A schematic that has constructed nothing yet. *)
Definition new_sch : Sch.t :=
  {| Sch.anon := ∅; Sch.elements := ∅; Sch.nodes := ∅ |}.

(** The class of a component, by the name [make] is given. *)
Definition class_named (n : string) : klass :=
  match find_class n with
  | Ok (AClass k) => k
  | _ => {| kname := n; kroot := cCpt; ktikz := None |}
  end.

(** A component of a new schematic with its options filled in, as the
    schematic does after construction. *)
Definition component (classname cpt_type cpt_id : string)
    (nodes args : list string) (o : Dict.t) : Cpt :=
  match make classname (Some new_sch) cpt_type cpt_id "" "" nodes args with
  | Ok (c, _) => set_opts c o
  | Raise _ =>
      set_opts (Cpt_init (class_named "Cpt") None cpt_type cpt_id "" ""
                  nodes args).1 o
  end.

(** A history: three resistors and a capacitor without ids, a resistor
    with the id 7, and the removal of the first resistor in between. *)
Definition sample_history : list event :=
  [New (class_named "R") "R" "" "R 1 2" "" ["1"; "2"] [];
   New (class_named "R") "R" "" "R 2 3" "" ["2"; "3"] [];
   Remove "R@1";
   New (class_named "C") "C" "" "C 3 0" "" ["3"; "0"] [];
   New (class_named "R") "R" "7" "R7 3 0" "" ["3"; "0"] [];
   New (class_named "R") "R" "" "R 1 0" "" ["1"; "0"] []].

(** A history in which a supplied id has the form of an automatic one. *)
Definition colliding_history : list event :=
  [New (class_named "R") "R" "" "R 1 2" "" ["1"; "2"] [];
   New (class_named "R") "R" "@1" "R@1 2 3" "" ["2"; "3"] []].

(** Resistor R1 between nodes 1 and 2, drawn in the direction [dir]. *)
Definition resistor (dir : string) : Cpt :=
  component "R" "R" "1" ["1"; "2"] [] [("dir", dir)].

(** The same resistor with no orientation option. *)
Definition resistor_no_dir : Cpt :=
  component "R" "R" "1" ["1"; "2"] [] [].

(** Two inductors, and the coupling K1 between them. *)
Definition inductor (n : string) (nodes : list string) : Cpt :=
  component "L" "L" n nodes [] [("dir", "down")].

Definition coupling : Cpt :=
  component "K" "K" "1" [] ["L1"; "L2"; "0.5"] [].

Definition sch_with_inductors : Sch.t :=
  Sch.set_elements new_sch
    (<["L2" := inductor "2" ["3"; "4"]]>
       (<["L1" := inductor "1" ["1"; "2"]]> ∅)).

(** A ground wire and an ordinary wire, drawn in the direction [dir]. *)
Definition ground_wire (dir : string) : Cpt :=
  component "W" "W" "1" ["1"; "0"] [] [("dir", dir); ("ground", "")].

Definition wire (dir : string) : Cpt :=
  component "W" "W" "1" ["1"; "2"] [] [("dir", dir)].

(** An NPN transistor and an op-amp, plain and mirrored. *)
Definition npn (o : Dict.t) : Cpt :=
  component "Q" "Q" "1" ["c"; "b"; "e"] [] (("dir", "right") :: o).

Definition opamp (o : Dict.t) : Cpt :=
  component "Eopamp" "E" "1" ["out"; "0"; "p"; "m"] [] (("dir", "right") :: o).

(** A schematic with plain nodes 1 and 2. *)
Definition plain_node : Node :=
  {| port := false; visible := fun draw_nodes => draw_nodes |}.

Definition sch_with_nodes : Sch.t :=
  {| Sch.anon := ∅; Sch.elements := ∅;
     Sch.nodes := <["2" := plain_node]> (<["1" := plain_node]> ∅) |}.

(** A one-port of the given class and type between nodes 1 and 2, with
    the labels the schematic gave it. *)
Definition labelled (classname cpt_type : string) (o : Dict.t)
    (il vl : string) : Cpt :=
  let c := component classname cpt_type "1" ["1"; "2"] [] o in
  {| cls := cls c; has_sch := has_sch c; type := type c; id := id c;
     net := net c; opts_string := opts_string c; nodes := nodes c;
     name := name c; args := args c; opts := opts c;
     Lname1 := Lname1 c; Lname2 := Lname2 c;
     id_label := Some il; value_label := Some vl;
     default_label := default_label c; _tcoords := _tcoords c |}.

(** ** More of the component base class *)

(** The keys of a dictionary, in order. *)
Definition keys (d : Dict.t) : list string := map fst d.

(** The generic keys that [OnePort.draw] moves to qualified keys. *)
Definition generic_keys : list string := ["v"; "vr"; "i"; "ir"; "l"].

(** The qualified keys they are moved to, for a label side and a
    voltage side. *)
Definition qualified_keys (label_pos voltage_pos : string) : list string :=
  ["v" +:+ voltage_pos; "v" +:+ voltage_pos +:+ ">";
   "i" +:+ label_pos; "i" +:+ label_pos +:+ "<"; "l" +:+ label_pos].

(** ** Quarter turns of points *)

(** A point turned as a component drawn in the direction [d] turns its
    local coordinates: not at all to the right, by a half turn to the
    left, and by a quarter turn up or down. *)
Definition turn (d : string) (p : num * num) : num * num :=
  if String.eqb d "right" then p
  else if String.eqb d "left" then (neg p.1, neg p.2)
  else if String.eqb d "up" then (neg p.2, p.1)
  else (p.2, neg p.1).

(** The rows of an array of points, as pairs of numbers. *)
Definition array_points (a : ndarray) : list (num * num) :=
  match a with
  | IntArr rows =>
      map (fun r => (PyInt (nth 0 r 0), PyInt (nth 1 r 0))) rows
  | FloatArr rows =>
      map (fun r => (PyFloat (nth 0 r 0%float), PyFloat (nth 1 r 0%float))) rows
  end.

(** Where the second node of a one-port lies from the first, in units
    of its size, by direction. *)
Definition one_port_step (d : string) : Z * Z :=
  if String.eqb d "right" then (1, 0)
  else if String.eqb d "left" then (-1, 0)
  else if String.eqb d "up" then (0, 1)
  else (0, -1).

(** ** Node markers *)

Section NodeMarkers.

(** [node.name], an attribute of the nodes of the schematic that only
    the markers read. *)
Variable node_name : Node -> string.

(** [Cpt._draw_node] *)
Definition _draw_node (sch : Sch.t) (n : string) (kw : kwargs)
  : result string :=
  if negb (draw_nodes kw) then Ok ""
  else
    node ← getitem n (Sch.nodes sch);
    if negb (visible node (draw_nodes kw)) then Ok ""
    else if port node
         then Ok ("  \draw (" +:+ node_name node +:+ ") node[ocirc] {};"
                  +:+ newline)
         else Ok ("  \draw (" +:+ node_name node +:+ ") node[circ] {};"
                  +:+ newline).

(** The loop of [Cpt._draw_nodes] over the drawn nodes. *)
Fixpoint draw_each (sch : Sch.t) (ns : list string) (kw : kwargs) (s : string)
  : result string :=
  match ns with
  | [] => Ok s
  | n :: rest =>
      m ← _draw_node sch n kw;
      draw_each sch rest kw (s +:+ m)
  end.

(** [Cpt._draw_nodes] *)
Definition _draw_nodes (sch : Sch.t) (c : Cpt) (kw : kwargs) : result string :=
  ns ← dnodes sch c;
  draw_each sch ns kw "".

End NodeMarkers.


(** The number of true flags among four. *)
Definition count_true (bs : list bool) : nat :=
  length (List.filter (fun b => b) bs).

(** ** More sample components *)

(** Resistor R1 drawn to the right with a voltage mark and a label. *)
Definition marked_resistor : Cpt :=
  labelled "R" "R" [("dir", "right"); ("v", "5V"); ("l", "load")] "R1" "10".

(** The coupling K1 with an orientation. *)
Definition coupling_right : Cpt := set_opts coupling [("dir", "right")].

(** A resistor mistakenly given three nodes. *)
Definition resistor3 : Cpt :=
  component "R" "R" "1" ["1"; "2"; "3"] [] [("dir", "right")].

(** * Properties *)

(** ** Automatic names *)

Lemma anon_counter (sch : Sch.t) (t : string) :
  let n := default 0 (Sch.anon sch !! t) in
  anon sch t =
    (str (n + 1), Sch.set_anon sch (<[t := n + 1]> (Sch.anon sch))).
Proof.
  unfold anon. destruct (Sch.anon sch !! t) as [n|] eqn:E; simpl.
  - rewrite E. simpl. rewrite lookup_insert_eq. reflexivity.
  - rewrite !lookup_insert_eq. simpl. rewrite insert_insert_eq. reflexivity.
Qed.

Lemma Cpt_init_auto (k : klass) (s : Sch.t) (t string_ os : string)
    (ns args : list string) :
  let n := default 0 (Sch.anon s !! t) in
  let r := Cpt_init k (Some s) t "" string_ os ns args in
  name r.1 = t +:+ "@" +:+ str (n + 1)
  /\ id r.1 = "" /\ type r.1 = t
  /\ r.2 = Some (Sch.set_anon s (<[t := n + 1]> (Sch.anon s))).
Proof.
  cbv zeta. unfold Cpt_init. rewrite anon_counter. simpl. auto.
Qed.

Lemma Cpt_init_user (k : klass) (s : Sch.t) (t u string_ os : string)
    (ns args : list string) :
  u <> "" ->
  let r := Cpt_init k (Some s) t u string_ os ns args in
  name r.1 = t +:+ u /\ id r.1 = u /\ type r.1 = t /\ r.2 = Some s.
Proof.
  intros Hu. cbv zeta. unfold Cpt_init.
  destruct (String.eqb u "") eqn:E.
  - apply String.eqb_eq in E. contradiction.
  - simpl. auto.
Qed.

Lemma auto_name_inj (t : string) : Inj (=) (=) (auto_name t).
Proof.
  intros i j H. unfold auto_name, str in H.
  apply (inj (String.app t)) in H.
  apply (inj (String.app "@")) in H.
  apply (inj pretty) in H. lia.
Qed.

Lemma run_New (sch : Sch.t) (k : klass) (t u string_ os : string)
    (ns args : list string) (rest : list event) :
  let r := Cpt_init k (Some sch) t u string_ os ns args in
  let s := default sch r.2 in
  let r' := run (Sch.set_elements s (<[name r.1 := r.1]> (Sch.elements s))) rest in
  run sch (New k t u string_ os ns args :: rest) = (r.1 :: r'.1, r'.2).
Proof.
  cbv zeta. simpl.
  destruct (Cpt_init k (Some sch) t u string_ os ns args) as [c sch'].
  simpl. destruct (run _ rest). reflexivity.
Qed.

(** From any state of the counters, the automatic names of one type
    continue the count of that type, one by one. *)
Lemma run_auto_names (evs : list event) (sch : Sch.t) (t : string) :
  let n0 := default 0 (Sch.anon sch !! t) in
  exists k : nat,
    auto_names t (run sch evs).1 =
      map (fun i => t +:+ "@" +:+ str (n0 + Z.of_nat i)) (seq 1 k).
Proof.
  revert sch. induction evs as [|ev rest IH]; intros sch; cbv zeta.
  - exists 0%nat. reflexivity.
  - destruct ev as [k ty u string_ os ns args | n].
    + rewrite run_New. cbv zeta.
      destruct (String.eqb u "") eqn:Eu.
      * apply String.eqb_eq in Eu. subst u.
        destruct (Cpt_init_auto k sch ty string_ os ns args)
          as (Hname & Hid & Hty & Hs).
        set (r := Cpt_init k (Some sch) ty "" string_ os ns args) in *.
        clearbody r. rewrite Hs. simpl default.
        set (s1 := Sch.set_elements _ _).
        destruct (IH s1) as [k' IH']. cbv zeta in IH'.
        unfold auto_names in *. simpl List.filter.
        rewrite Hty, Hid. clear Hty Hid. simpl fst.
        destruct (String.eqb ty t) eqn:Et.
        -- apply String.eqb_eq in Et. subst ty. exists (S k'). simpl.
           rewrite Hname. f_equal.
           rewrite IH'. rewrite <- (seq_shift k' 1), map_map.
           apply map_ext. intros i. subst s1. simpl.
           rewrite lookup_insert_eq. simpl. do 3 f_equal. lia.
        -- apply String.eqb_neq in Et. exists k'. simpl.
           rewrite IH'. apply map_ext. intros i. subst s1. simpl.
           rewrite lookup_insert_ne by done. reflexivity.
      * apply String.eqb_neq in Eu.
        destruct (Cpt_init_user k sch ty u string_ os ns args Eu)
          as (Hname & Hid & Hty & Hs).
        set (r := Cpt_init k (Some sch) ty u string_ os ns args) in *.
        clearbody r. rewrite Hs. simpl default.
        set (s1 := Sch.set_elements _ _).
        destruct (IH s1) as [k' IH']. cbv zeta in IH'. exists k'.
        unfold auto_names in *. simpl List.filter.
        rewrite Hid. simpl fst.
        replace (String.eqb u "") with false
          by (symmetry; apply String.eqb_neq; exact Eu).
        rewrite andb_false_r. exact IH'.
    + simpl run. apply (IH (Sch.set_elements sch (delete n (Sch.elements sch)))).
Qed.

(** A component constructed with an id is named by its type followed by
    that id, whatever the id is. *)
Lemma run_user_names (evs : list event) (sch : Sch.t) (c : Cpt) :
  In c (run sch evs).1 -> id c <> "" -> name c = type c +:+ id c.
Proof.
  revert sch. induction evs as [|ev rest IH]; intros sch; [intros []|].
  destruct ev as [k ty u string_ os ns args | n].
  - rewrite run_New. cbv zeta. simpl fst. intros [<- | Hin] Hid.
    + destruct (String.eqb u "") eqn:Eu.
      * apply String.eqb_eq in Eu. subst u.
        destruct (Cpt_init_auto k sch ty string_ os ns args)
          as (_ & Hi & _). contradiction.
      * apply String.eqb_neq in Eu.
        destruct (Cpt_init_user k sch ty u string_ os ns args Eu)
          as (Hn & Hi & Ht & _).
        rewrite Hn, Hi, Ht. reflexivity.
    + exact (IH _ Hin Hid).
  - simpl run. apply IH.
Qed.

(** The automatic names of a type, once they are known to count up. *)
Lemma In_auto_names (t u : string) (n : nat) :
  In (t +:+ u) (map (auto_name t) (seq 1 n))
  <-> exists i : nat, (1 <= i <= n)%nat /\ u = "@" +:+ str (Z.of_nat i).
Proof.
  rewrite in_map_iff. split.
  - intros (i & Hi & Hin). apply in_seq in Hin. exists i. split; [lia|].
    unfold auto_name in Hi. apply (inj (String.app t)) in Hi.
    symmetry. exact Hi.
  - intros (i & Hi & ->). exists i. split; [reflexivity|].
    apply in_seq. lia.
Qed.

(** C8. Within one schematic that has not yet named a component of type
    [t], the components of type [t] constructed without an id are named
    [t@1], [t@2], ... in the order of construction, whatever else is
    constructed and whichever elements are removed in between, and no
    such name is handed out twice. A supplied id is used as it is: a
    component of type [t] constructed with an id is named [t] followed
    by that id, and its name is one of the automatic names exactly when
    the id is the marker [@] followed by a number already handed out;
    it never is when the id does not begin with the marker. *)
Theorem auto_ids_count_up (sch : Sch.t) (evs : list event) (t : string) :
  Sch.anon sch !! t = None ->
  let cs := (run sch evs).1 in
  let autos := auto_names t cs in
  autos = map (auto_name t) (seq 1 (length autos))
  /\ NoDup autos
  /\ (forall c, In c cs -> type c = t -> id c <> "" ->
        name c = t +:+ id c
        /\ (In (name c) autos
            <-> exists i : nat,
                  (1 <= i <= length autos)%nat
                  /\ id c = "@" +:+ str (Z.of_nat i))
        /\ (String.prefix "@" (id c) = false -> ~ In (name c) autos)).
Proof.
  intros Hfresh cs autos.
  assert (Hseq : autos = map (auto_name t) (seq 1 (length autos))).
  { destruct (run_auto_names evs sch t) as [k H]. cbv zeta in H.
    rewrite Hfresh in H. fold cs autos in H. simpl in H.
    assert (Hk : length autos = k)
      by (rewrite H, length_map, length_seq; reflexivity).
    rewrite Hk. exact H. }
  split; [exact Hseq|]. split.
  - rewrite Hseq. change (NoDup (auto_name t <$> seq 1 (length autos))).
    apply NoDup_fmap_2; [apply auto_name_inj | apply NoDup_seq].
  - intros c Hc Ht Hid.
    pose proof (run_user_names evs sch c Hc Hid) as Hn. rewrite Ht in Hn.
    assert (Hiff : In (name c) autos
                   <-> exists i : nat,
                         (1 <= i <= length autos)%nat
                         /\ id c = "@" +:+ str (Z.of_nat i)).
    { rewrite Hn. rewrite Hseq at 1. apply In_auto_names. }
    split; [exact Hn|]. split; [exact Hiff|].
    intros Hu Hin. apply Hiff in Hin. destruct Hin as (i & _ & Hi).
    rewrite Hi in Hu.
    change ("@" +:+ str (Z.of_nat i)) with (String "@" (str (Z.of_nat i)))
      in Hu.
    cbn in Hu. destruct (str (Z.of_nat i)); discriminate Hu.
Qed.

Example sample_history_names :
  map name (run new_sch sample_history).1
  = ["R@1"; "R@2"; "C@1"; "R7"; "R@3"].
Proof. vm_compute. reflexivity. Qed.

Lemma auto_ids_count_up_witness :
  Sch.anon new_sch !! "R" = None
  /\ (let cs := (run new_sch sample_history).1 in
      let autos := auto_names "R" cs in
      autos = map (auto_name "R") (seq 1 (length autos))
      /\ NoDup autos
      /\ (forall c, In c cs -> type c = "R" -> id c <> "" ->
            name c = "R" +:+ id c
            /\ (In (name c) autos
                <-> exists i : nat,
                      (1 <= i <= length autos)%nat
                      /\ id c = "@" +:+ str (Z.of_nat i))
            /\ (String.prefix "@" (id c) = false -> ~ In (name c) autos))).
Proof.
  split; [reflexivity|].
  apply (auto_ids_count_up new_sch sample_history "R"); reflexivity.
Defined.

(** A resistor is named automatically, then one is constructed with
    the id [@1]: both are named [R@1]. *)
Lemma user_id_collision_counterexample :
  map id (run new_sch colliding_history).1 = [""; "@1"]
  /\ map name (run new_sch colliding_history).1 = ["R@1"; "R@1"]
  /\ auto_names "R" (run new_sch colliding_history).1 = ["R@1"].
Proof. vm_compute. auto. Qed.

(** C10. A component constructed with an empty [cpt_id] in a schematic
    is named by its type followed by the marker and the number [anon]
    returned, while its [id] attribute stays the empty string: its name
    is not its type followed by its id. *)
Theorem auto_named_id_stays_empty (k : klass) (s : Sch.t)
    (t string_ os : string) (ns args : list string) :
  let c := (Cpt_init k (Some s) t "" string_ os ns args).1 in
  name c = t +:+ "@" +:+ (anon s t).1
  /\ (anon s t).1 = str (default 0 (Sch.anon s !! t) + 1)
  /\ type c = t
  /\ id c = ""
  /\ name c <> type c +:+ id c.
Proof.
  cbv zeta.
  destruct (Cpt_init_auto k s t string_ os ns args) as (Hn & Hi & Ht & _).
  pose proof (anon_counter s t) as Ha. cbv zeta in Ha. rewrite Ha.
  cbn [fst].
  split; [exact Hn|]. split; [reflexivity|].
  split; [exact Ht|]. split; [exact Hi|].
  rewrite Hn, Hi, Ht. intros H.
  apply (inj (String.app t)) in H. simpl in H. discriminate H.
Qed.

Example auto_named_resistor :
  let c := (Cpt_init (class_named "R") (Some new_sch) "R" "" "R 1 2" ""
              ["1"; "2"] []).1 in
  name c = "R@1" /\ id c = "" /\ type c +:+ id c = "R".
Proof. vm_compute. auto. Qed.


(** ** Orientation, angle and rotation matrix *)

Section GeometryFacts.
Context {rt : Runtime}.

Lemma spec_angle_cases (d : string) (a : Z) :
  spec_angle d = Some a ->
  (d = "right" /\ a = 0) \/ (d = "down" /\ a = -90)
  \/ (d = "left" /\ a = 180) \/ (d = "up" /\ a = 90).
Proof.
  unfold spec_angle. simpl.
  destruct (String.eqb d "right") eqn:E1;
    [apply String.eqb_eq in E1; intros [= <-]; auto|].
  destruct (String.eqb d "down") eqn:E2;
    [apply String.eqb_eq in E2; intros [= <-]; auto|].
  destruct (String.eqb d "left") eqn:E3;
    [apply String.eqb_eq in E3; intros [= <-]; auto|].
  destruct (String.eqb d "up") eqn:E4;
    [apply String.eqb_eq in E4; intros [= <-]; auto 6|].
  discriminate.
Qed.

Lemma getitem_get (k : string) (d : Dict.t) (v : string) :
  Dict.get k d = Some v -> Dict.getitem k d = Ok v.
Proof. unfold Dict.getitem. intros ->. reflexivity. Qed.

Lemma getitem_missing (k : string) (d : Dict.t) :
  Dict.get k d = None -> Dict.getitem k d = Raise (KeyError k).
Proof. unfold Dict.getitem. intros ->. reflexivity. Qed.

(** The angle of a component whose orientation is one of the four
    cardinal values and that has no [rotate] option. *)
Lemma angle_cardinal (c : Cpt) (d : string) (a : Z) :
  Dict.get "dir" (opts c) = Some d ->
  spec_angle d = Some a ->
  Dict.mem "rotate" (opts c) = false ->
  angle c = Ok (PyInt a).
Proof.
  intros Hd Ha Hr. apply getitem_get in Hd.
  unfold angle, right, down, left, up. rewrite Hd, Hr.
  destruct (spec_angle_cases d a Ha) as [[-> ->]|[[-> ->]|[[-> ->]|[-> ->]]]];
    reflexivity.
Qed.

(** C1. For a component whose orientation option is [right], [down],
    [left] or [up] and that has no [rotate] option, [angle] is the int
    among 0, 90, 180, -90 that the table of the specification gives,
    and [R] is an int array, the matrix [[cos, sin], [-sin, cos]] of
    that angle with entries 0, 1 and -1, whose rows are orthonormal.
    [right] gives [[1, 0], [0, 1]] and [down] gives [[0, -1], [1, 0]]. *)
Theorem cardinal_geometry_exact (c : Cpt) (d : string) (a : Z) :
  Dict.get "dir" (opts c) = Some d ->
  spec_angle d = Some a ->
  Dict.mem "rotate" (opts c) = false ->
  angle c = Ok (PyInt a)
  /\ In a [0; 90; 180; -90]
  /\ R c = Ok (IntArr (rotation a))
  /\ orthogonal (rotation a)
  /\ (d = "right" -> R c = Ok (IntArr [[1; 0]; [0; 1]]))
  /\ (d = "down" -> R c = Ok (IntArr [[0; -1]; [1; 0]])).
Proof.
  intros Hd Ha Hr.
  pose proof (angle_cardinal c d a Hd Ha Hr) as Hangle.
  assert (HR : R c = Ok (IntArr (rotation a))).
  { unfold R. rewrite Hangle.
    destruct (spec_angle_cases d a Ha) as [[-> ->]|[[-> ->]|[[-> ->]|[-> ->]]]];
      reflexivity. }
  split; [exact Hangle|].
  destruct (spec_angle_cases d a Ha) as [[-> ->]|[[-> ->]|[[-> ->]|[-> ->]]]];
    (split; [simpl; auto 6|]); (split; [exact HR|]);
    (split; [vm_compute; auto|]);
    (split; intros E; try discriminate E; exact HR).
Qed.

(** C3. When the orientation option is absent, or is not one of the four
    cardinal values, asking for the angle or for the rotation matrix
    raises: [KeyError] on the missing key [dir] in the first case,
    [ValueError] (unknown orientation) in the second. These are the
    failures the specification files under ConfigurationError. *)
Theorem orientation_required (c : Cpt) :
  match Dict.get "dir" (opts c) with
  | Some d => cardinal d = false
  | None => True
  end ->
  let e :=
    match Dict.get "dir" (opts c) with
    | Some _ => ValueError
    | None => KeyError "dir"
    end in
  angle c = Raise e /\ R c = Raise e.
Proof.
  intros H. cbv zeta.
  assert (Hangle : angle c =
    Raise (match Dict.get "dir" (opts c) with
           | Some _ => ValueError
           | None => KeyError "dir"
           end)).
  { unfold angle, right, down, left, up, Dict.getitem.
    destruct (Dict.get "dir" (opts c)) as [d|]; [|reflexivity].
    unfold cardinal, in_tuple in H. simpl in H.
    repeat (apply orb_false_elim in H; destruct H as [? H]).
    simpl. repeat match goal with E : String.eqb _ _ = false |- _ =>
                    rewrite E; clear E; simpl end.
    reflexivity. }
  split; [exact Hangle|].
  unfold R. rewrite Hangle. reflexivity.
Qed.

End GeometryFacts.

Example resistor_class :
  cls (resistor "down")
  = {| kname := "R"; kroot := cOnePort; ktikz := Some "R" |}.
Proof. vm_compute. reflexivity. Qed.

Example up_matrix :
  forall rt : Runtime, R (resistor "up") = Ok (IntArr [[0; 1]; [-1; 0]]).
Proof. intros rt. reflexivity. Qed.

Lemma cardinal_geometry_exact_witness :
  (Dict.get "dir" (opts (resistor "down")) = Some "down"
   /\ spec_angle "down" = Some (-90)
   /\ Dict.mem "rotate" (opts (resistor "down")) = false)
  /\ (forall rt : Runtime,
        angle (resistor "down") = Ok (PyInt (-90))
        /\ In (-90) [0; 90; 180; -90]
        /\ R (resistor "down") = Ok (IntArr (rotation (-90)))
        /\ orthogonal (rotation (-90))
        /\ ("down" = "right" -> R (resistor "down") = Ok (IntArr [[1; 0]; [0; 1]]))
        /\ ("down" = "down" -> R (resistor "down") = Ok (IntArr [[0; -1]; [1; 0]]))).
Proof.
  split; [repeat split; reflexivity|].
  intros rt.
  apply (cardinal_geometry_exact (resistor "down") "down" (-90)); reflexivity.
Defined.

(** The matrix of a component drawn downwards is [[0, -1], [1, 0]], not
    [[0, 1], [-1, 0]], which is the matrix of one drawn upwards. *)
Lemma down_matrix_counterexample :
  (forall rt : Runtime, R (resistor "down") = Ok (IntArr [[0; -1]; [1; 0]]))
  /\ IntArr [[0; -1]; [1; 0]] <> IntArr [[0; 1]; [-1; 0]].
Proof. split; [intros rt; reflexivity | discriminate]. Qed.

Lemma orientation_required_witness :
  ((match Dict.get "dir" (opts resistor_no_dir) with
    | Some d => cardinal d = false
    | None => True
    end)
   /\ forall rt : Runtime,
        angle resistor_no_dir = Raise (KeyError "dir")
        /\ R resistor_no_dir = Raise (KeyError "dir"))
  /\ ((match Dict.get "dir" (opts (resistor "north")) with
       | Some d => cardinal d = false
       | None => True
       end)
      /\ forall rt : Runtime,
           angle (resistor "north") = Raise ValueError
           /\ R (resistor "north") = Raise ValueError).
Proof.
  split.
  - split; [exact I|].
    intros rt. apply (orientation_required resistor_no_dir). exact I.
  - split; [reflexivity|].
    intros rt. apply (orientation_required (resistor "north")). reflexivity.
Defined.

(** ** Node sets *)

Lemma Cpt_init_fields (k : klass) (sch0 : option Sch.t)
    (ty cid string_ os : string) (ns args0 : list string) :
  let c := (Cpt_init k sch0 ty cid string_ os ns args0).1 in
  cls c = k /\ type c = ty /\ id c = cid /\ nodes c = ns /\ args c = args0
  /\ opts c = Dict.empty.
Proof.
  cbv zeta. unfold Cpt_init.
  destruct sch0 as [s|]; [destruct (String.eqb cid "")|]; simpl;
    try destruct (anon s ty); simpl; auto 6.
Qed.

Lemma K_init_args (k : klass) (sch0 : option Sch.t) (ty cid string_ os : string)
    (ns : list string) (a b : string) (rest : list string) :
  exists c sch1,
    K_init k sch0 ty cid string_ os ns (a :: b :: rest) = Ok (c, sch1)
    /\ cls c = k /\ Lname1 c = Some a /\ Lname2 c = Some b /\ args c = rest.
Proof.
  unfold K_init. simpl. change (drop 0 rest) with rest.
  pose proof (Cpt_init_fields k sch0 ty cid string_ os ns rest) as H.
  cbv zeta in H. destruct H as (Hc & _ & _ & _ & Ha & _).
  destruct (Cpt_init k sch0 ty cid string_ os ns rest) as [c sch1].
  exists (set_Lnames c a b), sch1. simpl in *. auto.
Qed.

(** C2. A mutual coupling constructed with the names [a] and [b] of two
    inductors: looking up its drawn nodes in a schematic that has no
    element [a], or has [a] but no element [b], raises (a [KeyError] on
    the missing name, not a value); in a schematic that has both, the
    drawn nodes are the nodes of [a] followed by the nodes of [b], four
    in all for inductors of two nodes each. *)
Theorem coupling_nodes (k : klass) (sch0 : option Sch.t)
    (ty cid string_ os : string) (ns : list string) (a b : string)
    (rest : list string) (sch : Sch.t) :
  kroot k = cK ->
  exists c sch1,
    K_init k sch0 ty cid string_ os ns (a :: b :: rest) = Ok (c, sch1)
    /\ (Sch.elements sch !! a = None ->
        dnodes sch c = Raise (KeyError a) /\ raises (dnodes sch c))
    /\ (is_Some (Sch.elements sch !! a) -> Sch.elements sch !! b = None ->
        dnodes sch c = Raise (KeyError b) /\ raises (dnodes sch c))
    /\ (forall L1 L2 : Cpt,
          Sch.elements sch !! a = Some L1 ->
          Sch.elements sch !! b = Some L2 ->
          dnodes sch c = Ok (nodes L1 ++ nodes L2)%list
          /\ (length (nodes L1) = 2%nat -> length (nodes L2) = 2%nat ->
              length (nodes L1 ++ nodes L2)%list = 4%nat)).
Proof.
  intros Hk.
  destruct (K_init_args k sch0 ty cid string_ os ns a b rest)
    as (c & sch1 & Hinit & Hcls & H1 & H2 & _).
  exists c, sch1. split; [exact Hinit|].
  assert (Hd : dnodes sch c = K_dnodes sch c)
    by (unfold dnodes; rewrite Hcls, Hk; reflexivity).
  rewrite Hd. unfold K_dnodes, raises, getitem. rewrite H1, H2. simpl.
  repeat split.
  - rewrite H. reflexivity.
  - rewrite H. eauto.
  - destruct H as [L1 ->]. simpl. rewrite H0. reflexivity.
  - destruct H as [L1 ->]. simpl. rewrite H0. eauto.
  - rewrite H, H0. reflexivity.
  - rewrite length_app. lia.
Qed.

Example coupling_before_inductors :
  dnodes new_sch coupling = Raise (KeyError "L1").
Proof. vm_compute. reflexivity. Qed.

Example coupling_after_inductors :
  dnodes sch_with_inductors coupling = Ok ["1"; "2"; "3"; "4"].
Proof. vm_compute. reflexivity. Qed.

Lemma coupling_nodes_witness :
  kroot (class_named "K") = cK
  /\ exists c sch1,
       K_init (class_named "K") (Some new_sch) "K" "1" "K1 L1 L2 0.5" ""
         [] ("L1" :: "L2" :: ["0.5"]) = Ok (c, sch1)
       /\ (Sch.elements sch_with_inductors !! "L1" = None ->
           dnodes sch_with_inductors c = Raise (KeyError "L1")
           /\ raises (dnodes sch_with_inductors c))
       /\ (is_Some (Sch.elements sch_with_inductors !! "L1") ->
           Sch.elements sch_with_inductors !! "L2" = None ->
           dnodes sch_with_inductors c = Raise (KeyError "L2")
           /\ raises (dnodes sch_with_inductors c))
       /\ (forall L1 L2 : Cpt,
             Sch.elements sch_with_inductors !! "L1" = Some L1 ->
             Sch.elements sch_with_inductors !! "L2" = Some L2 ->
             dnodes sch_with_inductors c = Ok (nodes L1 ++ nodes L2)%list
             /\ (length (nodes L1) = 2%nat -> length (nodes L2) = 2%nat ->
                 length (nodes L1 ++ nodes L2)%list = 4%nat)).
Proof.
  split; [reflexivity|].
  apply (coupling_nodes (class_named "K") (Some new_sch) "K" "1"
           "K1 L1 L2 0.5" "" [] "L1" "L2" ["0.5"] sch_with_inductors).
  reflexivity.
Defined.

(** C6. A wire with the [ground] option, or the [implicit] or [sground]
    option, has one coordinate point, and its visible and drawn nodes
    are its first node alone, whatever its other options, orientation
    included; a wire with none of the three has the two points (0, 0),
    (1, 0) and all its nodes. *)
Theorem wire_implicit_single_node (sch : Sch.t) (c : Cpt) :
  kroot (cls c) = cWire ->
  ((Dict.mem "ground" (opts c) = true \/ Dict.mem "implicit" (opts c) = true
    \/ Dict.mem "sground" (opts c) = true) ->
   coords c = Ok [(PyInt 0, PyInt 0)]
   /\ forall n rest, nodes c = n :: rest ->
        vnodes c = Ok [n] /\ dnodes sch c = Ok [n])
  /\ ((Dict.mem "ground" (opts c) = false /\ Dict.mem "implicit" (opts c) = false
       /\ Dict.mem "sground" (opts c) = false) ->
      coords c = Ok [(PyInt 0, PyInt 0); (PyInt 1, PyInt 0)]
      /\ vnodes c = Ok (nodes c) /\ dnodes sch c = Ok (nodes c)).
Proof.
  intros Hk. unfold dnodes, vnodes, coords, Wire_coords, Wire_vnodes.
  rewrite Hk. split.
  - intros H.
    assert (Hi : implicit c = true).
    { unfold implicit. destruct H as [-> | [-> | ->]];
        rewrite ?orb_true_r; reflexivity. }
    rewrite Hi. split; [reflexivity|].
    intros n rest ->. split; reflexivity.
  - intros (Hg & Hi & Hs). unfold implicit. rewrite Hg, Hi, Hs. simpl.
    repeat split.
Qed.

Lemma wire_implicit_single_node_witness :
  kroot (cls (ground_wire "up")) = cWire
  /\ ((Dict.mem "ground" (opts (ground_wire "up")) = true
       \/ Dict.mem "implicit" (opts (ground_wire "up")) = true
       \/ Dict.mem "sground" (opts (ground_wire "up")) = true) ->
      coords (ground_wire "up") = Ok [(PyInt 0, PyInt 0)]
      /\ forall n rest, nodes (ground_wire "up") = n :: rest ->
           vnodes (ground_wire "up") = Ok [n]
           /\ dnodes new_sch (ground_wire "up") = Ok [n])
  /\ ((Dict.mem "ground" (opts (ground_wire "up")) = false
       /\ Dict.mem "implicit" (opts (ground_wire "up")) = false
       /\ Dict.mem "sground" (opts (ground_wire "up")) = false) ->
      coords (ground_wire "up") = Ok [(PyInt 0, PyInt 0); (PyInt 1, PyInt 0)]
      /\ vnodes (ground_wire "up") = Ok (nodes (ground_wire "up"))
      /\ dnodes new_sch (ground_wire "up") = Ok (nodes (ground_wire "up"))).
Proof.
  split; [reflexivity|].
  apply (wire_implicit_single_node new_sch (ground_wire "up")). reflexivity.
Defined.

Example ground_wire_down :
  coords (ground_wire "down") = Ok [(PyInt 0, PyInt 0)]
  /\ vnodes (ground_wire "down") = Ok ["1"]
  /\ coords (wire "down") = Ok [(PyInt 0, PyInt 0); (PyInt 1, PyInt 0)]
  /\ vnodes (wire "down") = Ok ["1"; "2"].
Proof. vm_compute. auto. Qed.

(** ** Mirrored coordinates *)

Example bjt_heights :
  reflect_y 1.5 Transistor_npos
  = [(PyInt 1, PyFloat 0); (PyInt 0, PyFloat 0.75); (PyInt 1, PyFloat 1.5)]
  /\ negate_y Transistor_npos
     = [(PyInt 1, PyFloat (-1.5)); (PyInt 0, PyFloat (-0.75)); (PyInt 1, PyInt 0)].
Proof. vm_compute. auto. Qed.

(** C9. With the same class, the coordinates with the [mirror] option
    set are a reflection of the coordinates without it. For the op-amp
    family the reflection is in the x-axis: every y-coordinate is
    negated. For the transistor family it is in the horizontal line
    through the middle of the outline: y becomes h - y, with h = 1.5 for
    bipolar and junction transistors and h = 1.52 for MOSFETs; there the
    mirrored coordinates are not the unmirrored ones with y negated. *)
Theorem mirror_reflects (c m : Cpt) :
  cls m = cls c ->
  mirror c = false ->
  mirror m = true ->
  (In (kroot (cls c)) [cOpamp; cFDOpamp] ->
   exists xy xy',
     coords c = Ok xy /\ coords m = Ok xy'
     /\ same_points xy' (negate_y xy) = true)
  /\ (In (kroot (cls c)) [cTransistor; cJFET; cMOSFET] ->
      exists xy xy',
        coords c = Ok xy /\ coords m = Ok xy'
        /\ same_points xy' (reflect_y (outline_height (kroot (cls c))) xy) = true
        /\ same_points xy' (negate_y xy) = false).
Proof.
  intros Hcls Hc Hm.
  unfold coords, Opamp_coords, FDOpamp_coords, Transistor_coords, classname.
  rewrite Hcls, Hc, Hm.
  split; intros Hin; simpl in Hin.
  - destruct Hin as [<- | [<- | []]];
      eexists _, _; (split; [reflexivity|]); (split; [reflexivity|]);
      vm_compute; reflexivity.
  - destruct Hin as [<- | [<- | [<- | []]]];
      destruct (in_tuple (kname (cls c)) ["Qpnp"; "Mpmos"; "Jpjf"]);
      eexists _, _; (split; [reflexivity|]); (split; [reflexivity|]);
      split; vm_compute; reflexivity.
Qed.

Lemma mirror_reflects_witness :
  (cls (npn [("mirror", "")]) = cls (npn [])
   /\ mirror (npn []) = false
   /\ mirror (npn [("mirror", "")]) = true)
  /\ (In (kroot (cls (npn []))) [cOpamp; cFDOpamp] ->
      exists xy xy',
        coords (npn []) = Ok xy /\ coords (npn [("mirror", "")]) = Ok xy'
        /\ same_points xy' (negate_y xy) = true)
  /\ (In (kroot (cls (npn []))) [cTransistor; cJFET; cMOSFET] ->
      exists xy xy',
        coords (npn []) = Ok xy /\ coords (npn [("mirror", "")]) = Ok xy'
        /\ same_points xy'
             (reflect_y (outline_height (kroot (cls (npn [])))) xy) = true
        /\ same_points xy' (negate_y xy) = false).
Proof.
  split; [repeat split; reflexivity|].
  apply (mirror_reflects (npn []) (npn [("mirror", "")])); reflexivity.
Defined.

Example opamp_mirror :
  coords (opamp []) = Ok Opamp_ppos
  /\ coords (opamp [("mirror", "")]) = Ok Opamp_npos
  /\ same_points Opamp_npos (negate_y Opamp_ppos) = true.
Proof. vm_compute. auto. Qed.

(** The mirrored NPN transistor has its outer terminals at heights 0 and
    1.5, where negating y would put them at -1.5 and 0. *)
Lemma transistor_mirror_counterexample :
  coords (npn []) = Ok Transistor_npos
  /\ coords (npn [("mirror", "")]) = Ok Transistor_ppos
  /\ same_points Transistor_ppos (negate_y Transistor_npos) = false.
Proof. vm_compute. auto. Qed.

(** ** Layout constraints *)

Lemma link_from_visit (vals : list num) (m1 : nat) (n1 : string)
    (rest : list string) :
  forall m2 g,
    link_from vals m1 n1 m2 rest g = visit_from emit_link vals m1 n1 m2 rest g.
Proof.
  induction rest as [|n2 rest IH]; intros m2 g; simpl; [reflexivity|].
  destruct (index vals m2) as [v2|e]; simpl; [|reflexivity].
  destruct (index vals m1) as [v1|e]; simpl; [|reflexivity].
  rewrite IH. unfold emit_link.
  destruct (num_eqb v2 v1); rewrite ?app_nil_r; reflexivity.
Qed.

Lemma link_all_visit (vals : list num) (ns : list string) :
  forall m1 g, link_all vals m1 ns g = visit_all emit_link vals m1 ns g.
Proof.
  induction ns as [|n1 rest IH]; intros m1 g; simpl; [reflexivity|].
  rewrite link_from_visit.
  destruct (visit_from emit_link vals m1 n1 (S m1) rest g); simpl;
    [apply IH | reflexivity].
Qed.

Lemma place_from_visit (vals : list num) (sz : float) (m1 : nat) (n1 : string)
    (rest : list string) :
  forall m2 g,
    place_from vals sz m1 n1 m2 rest g
    = visit_from (emit_place sz) vals m1 n1 m2 rest g.
Proof.
  induction rest as [|n2 rest IH]; intros m2 g; simpl; [reflexivity|].
  destruct (index vals m2) as [v2|e]; simpl; [|reflexivity].
  destruct (index vals m1) as [v1|e]; simpl; [|reflexivity].
  apply IH.
Qed.

Lemma place_all_visit (vals : list num) (sz : float) (ns : list string) :
  forall m1 g,
    place_all vals sz m1 ns g = visit_all (emit_place sz) vals m1 ns g.
Proof.
  induction ns as [|n1 rest IH]; intros m1 g; simpl; [reflexivity|].
  rewrite place_from_visit.
  destruct (visit_from (emit_place sz) vals m1 n1 (S m1) rest g); simpl;
    [apply IH | reflexivity].
Qed.

Section Visits.
Variable emit : string -> string -> num -> num -> list call.
Variable vals : list num.

(** The inner loop succeeds when the values reach as far as the nodes,
    and makes the calls of every node after [n1], in order. *)
Lemma visit_from_spec (m1 : nat) (n1 : string) (v1 : num) :
  vals !! m1 = Some v1 ->
  forall (rest : list string) (m2 : nat) (g : list call),
    (m2 + length rest <= length vals)%nat ->
    exists calls,
      visit_from emit vals m1 n1 m2 rest g = Ok (g ++ calls)%list
      /\ forall x, In x calls <->
           exists j b v2,
             rest !! j = Some b /\ vals !! (m2 + j)%nat = Some v2
             /\ In x (emit n1 b v1 v2).
Proof.
  intros Hv1. induction rest as [|n2 rest IH]; intros m2 g Hlen.
  - exists []. simpl. rewrite app_nil_r. split; [reflexivity|].
    intros x. split; [intros []|].
    intros (j & b & v2 & Hj & _). rewrite lookup_nil in Hj. discriminate.
  - simpl in Hlen.
    destruct (lookup_lt_is_Some_2 vals m2) as [v2 Hv2]; [lia|].
    destruct (IH (S m2) (g ++ emit n1 n2 v1 v2)%list) as (calls & Hrun & Hin);
      [lia|].
    exists (emit n1 n2 v1 v2 ++ calls)%list. split.
    + simpl. unfold index. rewrite Hv2, Hv1. simpl.
      rewrite Hrun, app_assoc. reflexivity.
    + intros x. rewrite in_app_iff, Hin. split.
      * intros [H | (j & b & v & Hj & Hvj & Hx)].
        -- exists 0%nat, n2, v2. rewrite Nat.add_0_r. auto.
        -- exists (S j), b, v.
           replace (m2 + S j)%nat with (S m2 + j)%nat by lia. auto.
      * intros (j & b & v & Hj & Hvj & Hx). destruct j as [|j].
        -- simpl in Hj. injection Hj as <-.
           rewrite Nat.add_0_r, Hv2 in Hvj. injection Hvj as <-. auto.
        -- right. exists j, b, v. simpl in Hj.
           replace (S m2 + j)%nat with (m2 + S j)%nat by lia. auto.
Qed.

(** The whole double loop, started at position [m1] of the values. *)
Lemma visit_all_spec :
  forall (ns : list string) (m1 : nat) (g : list call),
    (m1 + length ns <= length vals)%nat ->
    exists calls,
      visit_all emit vals m1 ns g = Ok (g ++ calls)%list
      /\ forall x, In x calls <->
           exists i j a b vi vj,
             (i < j)%nat /\ ns !! i = Some a /\ ns !! j = Some b
             /\ vals !! (m1 + i)%nat = Some vi
             /\ vals !! (m1 + j)%nat = Some vj
             /\ In x (emit a b vi vj).
Proof.
  induction ns as [|n1 rest IH]; intros m1 g Hlen.
  - exists []. simpl. rewrite app_nil_r. split; [reflexivity|].
    intros x. split; [intros []|].
    intros (i & j & a & b & vi & vj & _ & Hi & _).
    rewrite lookup_nil in Hi. discriminate.
  - simpl in Hlen.
    destruct (lookup_lt_is_Some_2 vals m1) as [v1 Hv1]; [lia|].
    destruct (visit_from_spec m1 n1 v1 Hv1 rest (S m1) g)
      as (c1 & Hrun1 & Hin1); [lia|].
    destruct (IH (S m1) (g ++ c1)%list) as (c2 & Hrun2 & Hin2); [lia|].
    exists (c1 ++ c2)%list. split.
    + simpl. rewrite Hrun1. simpl. rewrite Hrun2, app_assoc. reflexivity.
    + intros x. rewrite in_app_iff, Hin1, Hin2. split.
      * intros [(j & b & v2 & Hj & Hvj & Hx)
               | (i & j & a & b & vi & vj & Hlt & Hi & Hj & Hvi & Hvj & Hx)].
        -- exists 0%nat, (S j), n1, b, v1, v2.
           rewrite Nat.add_0_r.
           replace (m1 + S j)%nat with (S m1 + j)%nat by lia.
           repeat split; auto. lia.
        -- exists (S i), (S j), a, b, vi, vj.
           replace (m1 + S i)%nat with (S m1 + i)%nat by lia.
           replace (m1 + S j)%nat with (S m1 + j)%nat by lia.
           repeat split; auto. lia.
      * intros (i & j & a & b & vi & vj & Hlt & Hi & Hj & Hvi & Hvj & Hx).
        destruct j as [|j]; [lia|]. destruct i as [|i].
        -- left. simpl in Hi, Hj. injection Hi as <-.
           rewrite Nat.add_0_r, Hv1 in Hvi. injection Hvi as <-.
           exists j, b, vj.
           replace (S m1 + j)%nat with (m1 + S j)%nat by lia. auto.
        -- right. exists i, j, a, b, vi, vj. simpl in Hi, Hj.
           replace (S m1 + i)%nat with (m1 + S i)%nat by lia.
           replace (S m1 + j)%nat with (m1 + S j)%nat by lia.
           repeat split; auto. lia.
Qed.

End Visits.

Lemma emit_link_In (a b : string) (vi vj : num) (x : call) :
  In x (emit_link a b vi vj) <-> num_eqb vj vi = true /\ x = Link a b.
Proof.
  unfold emit_link. destruct (num_eqb vj vi); simpl.
  - split; [intros [<-|[]]; auto | intros [_ ->]; auto].
  - split; [intros [] | intros [H _]; discriminate H].
Qed.


Lemma link_all_links (ns : list string) (vals : list num) (g : list call) :
  (length ns <= length vals)%nat ->
  exists calls,
    link_all vals 0 ns g = Ok (g ++ calls)%list
    /\ links_coinciding ns vals calls.
Proof.
  intros Hlen. rewrite link_all_visit.
  destruct (visit_all_spec emit_link vals ns 0%nat g) as (calls & Hrun & Hin);
    [simpl; lia|].
  exists calls. split; [exact Hrun|].
  intros x. rewrite Hin. unfold pair_at. cbn [Nat.add].
  split; intros (i & j & a & b & vi & vj & H).
  - destruct H as (? & ? & ? & ? & ? & Hx). apply emit_link_In in Hx.
    destruct Hx. exists i, j, a, b, vi, vj. auto 10.
  - destruct H as ((? & ? & ? & ? & ?) & ? & ?).
    exists i, j, a, b, vi, vj. rewrite emit_link_In. auto 10.
Qed.


Lemma dnodes_set_tcoords (sch : Sch.t) (c : Cpt) (t : ndarray) :
  dnodes sch (set_tcoords c t) = dnodes sch c.
Proof. reflexivity. Qed.

Section LayoutFacts.
Context {rt : Runtime}.

Lemma tcoords_dnodes (sch : Sch.t) (c c' : Cpt) (t : ndarray) :
  tcoords c = Ok (t, c') -> dnodes sch c' = dnodes sch c.
Proof.
  unfold tcoords. destruct (_tcoords c).
  - intros [= _ <-]. reflexivity.
  - destruct (coords c); simpl; [|discriminate].
    destruct (R c); simpl; [|discriminate].
    destruct (np_dot _ _); simpl; [|discriminate].
    intros [= _ <-]. apply dnodes_set_tcoords.
Qed.

Lemma xvals_dnodes (sch : Sch.t) (c c' : Cpt) (xs : list num) :
  xvals c = Ok (xs, c') -> dnodes sch c' = dnodes sch c.
Proof.
  unfold xvals. destruct (tcoords c) as [[t c1]|] eqn:E; simpl; [|discriminate].
  destruct (column t 0); simpl; [|discriminate].
  intros [= _ <-]. exact (tcoords_dnodes sch c c1 t E).
Qed.

Lemma yvals_dnodes (sch : Sch.t) (c c' : Cpt) (ys : list num) :
  yvals c = Ok (ys, c') -> dnodes sch c' = dnodes sch c.
Proof.
  unfold yvals. destruct (tcoords c) as [[t c1]|] eqn:E; simpl; [|discriminate].
  destruct (column t 1); simpl; [|discriminate].
  intros [= _ <-]. exact (tcoords_dnodes sch c c1 t E).
Qed.


End LayoutFacts.



Example resistor_right_x :
  forall rt : Runtime,
    xlink new_sch (resistor "right") []
    = Ok ([], set_tcoords (resistor "right") (IntArr [[0; 0]; [1; 0]]))
    /\ xplace new_sch (resistor "right") []
       = Ok ([Add "1" "2" 1%float],
             set_tcoords (resistor "right") (IntArr [[0; 0]; [1; 0]])).
Proof. intros rt. split; reflexivity. Qed.

(** ** The drawing command of a one-port *)

Section DrawFacts.
Context {rt : Runtime}.

Lemma OnePort_default_label_spec (c : Cpt) (kw : kwargs) (pos il vl : string) :
  id_label c = Some il ->
  value_label c = Some vl ->
  OnePort_default_label c kw pos = Ok (spec_default_label kw pos il vl).
Proof.
  intros Hi Hv. unfold OnePort_default_label, spec_default_label.
  rewrite Hi, Hv. unfold getattr.
  destruct (label_ids kw), (label_values kw); cbn -[String.append];
    destruct (String.eqb il ""); cbn -[String.append];
    destruct (String.eqb vl ""); reflexivity.
Qed.

(** What [draw] returns when nothing it reads is missing. *)
Lemma OnePort_draw_ok (sch : Sch.t) (c : Cpt) (kw : kwargs) (a b t d : string)
    (na nb : Node) (il vl : string) :
  dnodes sch c = Ok [a; b] ->
  ktikz (cls c) = Some t ->
  Dict.get "dir" (opts c) = Some d ->
  Sch.nodes sch !! a = Some na ->
  Sch.nodes sch !! b = Some nb ->
  id_label c = Some il ->
  value_label c = Some vl ->
  let src := in_tuple (type c) source_types in
  let pos := label_side c d in
  let c' := set_opts c (qualify_opts pos (voltage_side c d) (opts c)) in
  OnePort_draw sch c kw =
    Ok (command (if src then b else a)
          (if String.eqb (type c) "R" && variable c then "vR" else t)
          (if String.eqb (label_str c') "" then spec_default_label kw pos il vl
           else label_str c')
          (join "," [args_str c'; voltage_str c'; current_str c'])
          (if src then _node_str nb na kw else _node_str na nb kw)
          (name c)
          (if src then a else b),
        c').
Proof.
  intros Hd Ht Hdir Ha Hb Hi Hv. cbv zeta.
  unfold OnePort_draw, horizontal, vertical, voltage_side, label_side.
  rewrite Hd, Ht. cbn -[lookup String.append in_tuple qualify_opts command].
  rewrite (getitem_get _ _ _ Hdir).
  cbn -[lookup String.append in_tuple qualify_opts command].
  destruct (in_tuple (type c) source_types);
    cbn -[lookup String.append in_tuple qualify_opts command].
  - destruct (in_tuple d ["left"; "right"]);
      cbn -[lookup String.append in_tuple qualify_opts command];
      unfold getitem; rewrite Ha, Hb;
      cbn -[lookup String.append in_tuple qualify_opts command];
      rewrite (OnePort_default_label_spec _ kw _ il vl) by assumption;
      reflexivity.
  - destruct (in_tuple d ["left"; "down"]);
      cbn -[lookup String.append in_tuple qualify_opts command];
      unfold getitem; rewrite Ha, Hb;
      cbn -[lookup String.append in_tuple qualify_opts command];
      rewrite (OnePort_default_label_spec _ kw _ il vl) by assumption;
      reflexivity.
Qed.

(** The drawn nodes of a one-port are its stored nodes: all of them, or
    the first two for a voltage-controlled source class. *)
Lemma one_port_dnodes (sch : Sch.t) (c : Cpt) :
  (In (kroot (cls c)) [cOnePort; cCCS] -> dnodes sch c = Ok (nodes c))
  /\ (kroot (cls c) = cVCS -> dnodes sch c = Ok (take 2 (nodes c)))
  /\ (kroot (cls c) = cWire -> implicit c = false ->
      dnodes sch c = Ok (nodes c)).
Proof.
  unfold dnodes, vnodes, Wire_vnodes. repeat split.
  - intros [<- | [<- | []]]; reflexivity.
  - intros ->. reflexivity.
  - intros -> ->. reflexivity.
Qed.

(** C4. The drawing command of a one-port with drawn nodes [a], [b]
    (its stored nodes, in their order) is the text
    [\draw (b) to [...] (a);] when the type of the component is one of
    V, I, E, F, G, H, and [\draw (a) to [...] (b);] for every other
    type. *)
Theorem one_port_node_order (sch : Sch.t) (c : Cpt) (kw : kwargs)
    (a b t d : string) (na nb : Node) (il vl : string) :
  dnodes sch c = Ok [a; b] ->
  ktikz (cls c) = Some t ->
  Dict.get "dir" (opts c) = Some d ->
  Sch.nodes sch !! a = Some na ->
  Sch.nodes sch !! b = Some nb ->
  id_label c = Some il ->
  value_label c = Some vl ->
  (In (kroot (cls c)) [cOnePort; cCCS] -> nodes c = [a; b])
  /\ (kroot (cls c) = cVCS -> take 2 (nodes c) = [a; b])
  /\ exists tikz_cpt lbl args_ node_str c',
       OnePort_draw sch c kw =
         Ok ("  \draw ("
             +:+ (if in_tuple (type c) ["V"; "I"; "E"; "F"; "G"; "H"]
                  then b else a)
             +:+ ") to [align=right," +:+ tikz_cpt +:+ "," +:+ lbl +:+ ","
             +:+ args_ +:+ "," +:+ node_str +:+ ",n=" +:+ name c +:+ "] ("
             +:+ (if in_tuple (type c) ["V"; "I"; "E"; "F"; "G"; "H"]
                  then a else b)
             +:+ ");" +:+ newline,
             c').
Proof.
  intros Hd Ht Hdir Ha Hb Hi Hv.
  destruct (one_port_dnodes sch c) as (H1 & H2 & _).
  split; [intros Hk; specialize (H1 Hk); congruence|].
  split; [intros Hk; specialize (H2 Hk); congruence|].
  pose proof (OnePort_draw_ok sch c kw a b t d na nb il vl
                Hd Ht Hdir Ha Hb Hi Hv) as H.
  cbv zeta in H. rewrite H. unfold command.
  do 5 eexists. reflexivity.
Qed.

End DrawFacts.

(** *** Options selected by their keys *)

Section Selected.
Variable P : string -> bool.

Let sel (d : Dict.t) : Dict.t := List.filter (fun kv => P kv.1) d.

Lemma selected_set (k v : string) (d : Dict.t) :
  P k = false -> sel (Dict.set k v d) = sel d.
Proof.
  intros Hk. unfold sel. induction d as [|[k' v'] rest IH]; simpl.
  - rewrite Hk. reflexivity.
  - destruct (String.eqb k k') eqn:E; simpl.
    + apply String.eqb_eq in E. subst k'. rewrite Hk. reflexivity.
    + rewrite IH. reflexivity.
Qed.

Lemma selected_remove (k : string) (d : Dict.t) :
  P k = false -> sel (Dict.remove k d) = sel d.
Proof.
  intros Hk. unfold sel. induction d as [|[k' v'] rest IH]; simpl.
  - reflexivity.
  - destruct (String.eqb k k') eqn:E; simpl.
    + apply String.eqb_eq in E. subst k'. rewrite Hk. reflexivity.
    + rewrite IH. reflexivity.
Qed.

Lemma selected_rename (k1 k2 : string) (d : Dict.t) :
  P k1 = false -> P k2 = false -> sel (Dict.rename k1 k2 d) = sel d.
Proof.
  intros H1 H2. unfold Dict.rename. destruct (Dict.get k1 d); [|reflexivity].
  rewrite selected_set, selected_remove by assumption. reflexivity.
Qed.

Lemma selected_none (k : string) (d : Dict.t) :
  sel d = [] -> P k = true -> Dict.get k d = None.
Proof.
  unfold sel. intros Hs Hk. induction d as [|[k' v'] rest IH]; simpl in *.
  - reflexivity.
  - destruct (P k') eqn:E; [discriminate Hs|].
    destruct (String.eqb k k') eqn:Ek.
    + apply String.eqb_eq in Ek. congruence.
    + apply IH. exact Hs.
Qed.

Lemma selected_one (k v : string) (d : Dict.t) :
  sel d = [(k, v)] -> P k = true ->
  Dict.get k d = Some v /\ sel (Dict.remove k d) = [].
Proof.
  unfold sel. intros Hs Hk. induction d as [|[k' v'] rest IH]; simpl in *.
  - discriminate Hs.
  - destruct (P k') eqn:E.
    + injection Hs as -> -> Hrest. rewrite String.eqb_refl. auto.
    + destruct (String.eqb k k') eqn:Ek.
      * apply String.eqb_eq in Ek. congruence.
      * simpl. rewrite E. apply IH. exact Hs.
Qed.

Lemma set_new_key (k v : string) (d : Dict.t) :
  Dict.get k d = None -> Dict.set k v d = (d ++ [(k, v)])%list.
Proof.
  induction d as [|[k' v'] rest IH]; simpl; [reflexivity|].
  destruct (String.eqb k k'); [discriminate|].
  intros H. rewrite IH by exact H. reflexivity.
Qed.

Lemma selected_renamed_one (k k2 v : string) (d : Dict.t) :
  sel d = [(k, v)] -> P k = true -> P k2 = true ->
  sel (Dict.rename k k2 d) = [(k2, v)].
Proof.
  intros Hs Hk Hk2. destruct (selected_one k v d Hs Hk) as [Hg Hr].
  unfold Dict.rename. rewrite Hg.
  rewrite set_new_key by (apply selected_none; assumption).
  unfold sel in *. rewrite List.filter_app, Hr. simpl. rewrite Hk2.
  reflexivity.
Qed.

End Selected.

Lemma label_options_qualified (lp vp : string) (o : Dict.t) :
  In lp ["^"; "_"] -> In vp ["^"; "_"] ->
  let sel d := List.filter (fun kv => in_tuple kv.1 label_keys) d in
  (sel o = [] -> sel (qualify_opts lp vp o) = [])
  /\ (forall v, sel o = [("l", v)] ->
        sel (qualify_opts lp vp o) = [("l" +:+ lp, v)]).
Proof.
  intros Hlp Hvp sel. unfold qualify_opts.
  set (o4 := Dict.rename "ir" _ (Dict.rename "i" _ (Dict.rename "vr" _
               (Dict.rename "v" _ o)))).
  assert (H4 : sel o4 = sel o).
  { subst o4 sel. simpl in Hlp, Hvp.
    destruct Hlp as [<-|[<-|[]]]; destruct Hvp as [<-|[<-|[]]];
      rewrite !(selected_rename (fun k => in_tuple k label_keys))
        by reflexivity; reflexivity. }
  split.
  - intros Ho. rewrite <- H4 in Ho. unfold Dict.rename.
    rewrite (selected_none (fun k => in_tuple k label_keys) "l" o4 Ho)
      by reflexivity.
    exact Ho.
  - intros v Ho. rewrite <- H4 in Ho.
    apply (selected_renamed_one (fun k => in_tuple k label_keys));
      [exact Ho | reflexivity |].
    simpl in Hlp. destruct Hlp as [<-|[<-|[]]]; reflexivity.
Qed.

Section LabelFacts.
Context {rt : Runtime}.

(** C7. A one-port drawn to the right whose drawing succeeds; its
    command is the text [\draw (n1) to [align=right,cpt,label,...] (n2);].
    With no label option, the label field of that text is the default
    label:
    "id=value" (in braces) when [label_ids] and [label_values] are both
    true and the id label and the value label are both non-empty, the id
    label when [label_ids] is true and the first case does not apply,
    the value label when only that remains to show, and nothing
    otherwise, in particular when both flags are off. With the generic
    label option [l] as its only label option, the label field is that
    option instead, formatted and qualified with the label side,
    whatever the flags and the default. *)
Theorem one_port_label (sch : Sch.t) (c : Cpt) (kw : kwargs)
    (a b t : string) (na nb : Node) (il vl : string) :
  dnodes sch c = Ok [a; b] ->
  ktikz (cls c) = Some t ->
  Dict.get "dir" (opts c) = Some "right" ->
  Sch.nodes sch !! a = Some na ->
  Sch.nodes sch !! b = Some nb ->
  id_label c = Some il ->
  value_label c = Some vl ->
  let src := in_tuple (type c) source_types in
  let pos := if src then "^" else "_" in
  let c' := set_opts c (qualify_opts pos (if src then "_" else "^") (opts c)) in
  let emitted lbl :=
    Ok ("  \draw (" +:+ (if src then b else a) +:+ ") to [align=right,"
        +:+ (if String.eqb (type c) "R" && variable c then "vR" else t)
        +:+ "," +:+ lbl +:+ ","
        +:+ join "," [args_str c'; voltage_str c'; current_str c']
        +:+ ","
        +:+ (if src then _node_str nb na kw else _node_str na nb kw)
        +:+ ",n=" +:+ name c +:+ "] (" +:+ (if src then a else b) +:+ ");"
        +:+ newline,
        c') in
  (label_options c = [] ->
   OnePort_draw sch c kw = emitted (spec_default_label kw pos il vl)
   /\ (label_ids kw = true -> label_values kw = true ->
       il <> "" -> vl <> "" ->
       spec_default_label kw pos il vl
       = "l" +:+ pos +:+ "={" +:+ il +:+ "=" +:+ vl +:+ "}")
   /\ (label_ids kw = true -> label_values kw = false -> il <> "" ->
       spec_default_label kw pos il vl = "l" +:+ pos +:+ "=" +:+ il)
   /\ (label_ids kw = false -> label_values kw = false ->
       spec_default_label kw pos il vl = ""))
  /\ (forall v, label_options c = [("l", v)] ->
        OnePort_draw sch c kw
        = emitted ("l" +:+ pos +:+ "=" +:+ format_label v)).
Proof.
  intros Hd Ht Hdir Ha Hb Hi Hv. cbv zeta.
  pose proof (OnePort_draw_ok sch c kw a b t "right" na nb il vl
                Hd Ht Hdir Ha Hb Hi Hv) as H.
  cbv zeta in H. unfold voltage_side, label_side, command in H.
  assert (Hq : forall lp vp : string, In lp ["^"; "_"] -> In vp ["^"; "_"] ->
            (label_options c = [] ->
             label_str (set_opts c (qualify_opts lp vp (opts c))) = "")
            /\ (forall v, label_options c = [("l", v)] ->
                  label_str (set_opts c (qualify_opts lp vp (opts c)))
                  = "l" +:+ lp +:+ "=" +:+ format_label v)).
  { intros lp vp Hlp Hvp.
    destruct (label_options_qualified lp vp (opts c) Hlp Hvp) as [Q0 Q1].
    unfold label_options, label_str, opts_str. simpl opts.
    split.
    - intros Ho. rewrite (Q0 Ho). reflexivity.
    - intros v Ho. rewrite (Q1 v Ho). reflexivity. }
  destruct (in_tuple (type c) source_types);
    cbn [in_tuple existsb String.eqb Ascii.eqb Bool.eqb orb] in H.
  - destruct (Hq "^" "_") as [Q0 Q1]; [simpl; auto | simpl; auto |].
    split.
    + intros Ho. rewrite H, (Q0 Ho). split; [reflexivity|].
      unfold spec_default_label. repeat split.
      * intros -> -> Hil Hvl. apply String.eqb_neq in Hil, Hvl.
        rewrite Hil, Hvl. reflexivity.
      * intros -> -> Hil. apply String.eqb_neq in Hil. rewrite Hil.
        reflexivity.
      * intros -> ->. reflexivity.
    + intros v Ho. rewrite H, (Q1 v Ho). reflexivity.
  - destruct (Hq "_" "^") as [Q0 Q1]; [simpl; auto | simpl; auto |].
    split.
    + intros Ho. rewrite H, (Q0 Ho). split; [reflexivity|].
      unfold spec_default_label. repeat split.
      * intros -> -> Hil Hvl. apply String.eqb_neq in Hil, Hvl.
        rewrite Hil, Hvl. reflexivity.
      * intros -> -> Hil. apply String.eqb_neq in Hil. rewrite Hil.
        reflexivity.
      * intros -> ->. reflexivity.
    + intros v Ho. rewrite H, (Q1 v Ho). reflexivity.
Qed.

End LabelFacts.

Example resistor_command :
  forall rt : Runtime,
    fst <$> OnePort_draw sch_with_nodes
              (labelled "R" "R" [("dir", "right")] "R1" "10") default_kwargs
    = Ok ("  \draw (1) to [align=right,R,l_={R1=10},,,,*-*,n=R1] (2);"
          +:+ newline).
Proof. intros rt. vm_compute. reflexivity. Qed.

Example voltage_source_command :
  forall rt : Runtime,
    fst <$> OnePort_draw sch_with_nodes
              (labelled "V" "V" [("dir", "right")] "V1" "5") default_kwargs
    = Ok ("  \draw (2) to [align=right,V,l^={V1=5},,,,*-*,n=V1] (1);"
          +:+ newline).
Proof. intros rt. vm_compute. reflexivity. Qed.

Example resistor_command_ids_only :
  forall rt : Runtime,
    fst <$> OnePort_draw sch_with_nodes
              (labelled "R" "R" [("dir", "right")] "R1" "10")
              {| draw_nodes := true; label_ids := true; label_values := false |}
    = Ok ("  \draw (1) to [align=right,R,l_=R1,,,,*-*,n=R1] (2);"
          +:+ newline).
Proof. intros rt. vm_compute. reflexivity. Qed.

Example resistor_command_no_labels :
  forall rt : Runtime,
    fst <$> OnePort_draw sch_with_nodes
              (labelled "R" "R" [("dir", "right")] "R1" "10")
              {| draw_nodes := true; label_ids := false; label_values := false |}
    = Ok ("  \draw (1) to [align=right,R,,,,,*-*,n=R1] (2);" +:+ newline).
Proof. intros rt. vm_compute. reflexivity. Qed.

Example resistor_command_explicit_label :
  forall rt : Runtime,
    fst <$> OnePort_draw sch_with_nodes
              (labelled "R" "R" [("dir", "right"); ("l", "load")] "R1" "10")
              default_kwargs
    = Ok ("  \draw (1) to [align=right,R,l_=" +:+ format_label "load"
          +:+ ",,,,*-*,n=R1] (2);" +:+ newline).
Proof. intros rt. reflexivity. Qed.

Lemma one_port_node_order_witness :
  let v := labelled "V" "V" [("dir", "right")] "V1" "5" in
  let r := labelled "R" "R" [("dir", "right")] "R1" "10" in
  (nodes v = ["1"; "2"] /\ nodes r = ["1"; "2"])
  /\ (dnodes sch_with_nodes v = Ok ["1"; "2"]
   /\ ktikz (cls v) = Some "V"
   /\ Dict.get "dir" (opts v) = Some "right"
   /\ Sch.nodes sch_with_nodes !! "1" = Some plain_node
   /\ Sch.nodes sch_with_nodes !! "2" = Some plain_node
   /\ id_label v = Some "V1"
   /\ value_label v = Some "5")
  /\ (dnodes sch_with_nodes r = Ok ["1"; "2"]
   /\ ktikz (cls r) = Some "R"
   /\ Dict.get "dir" (opts r) = Some "right"
   /\ Sch.nodes sch_with_nodes !! "1" = Some plain_node
   /\ Sch.nodes sch_with_nodes !! "2" = Some plain_node
   /\ id_label r = Some "R1"
   /\ value_label r = Some "10")
  /\ (forall rt : Runtime,
        (In (kroot (cls v)) [cOnePort; cCCS] -> nodes v = ["1"; "2"])
        /\ (kroot (cls v) = cVCS -> take 2 (nodes v) = ["1"; "2"])
        /\ exists tikz_cpt lbl args_ node_str c',
             OnePort_draw sch_with_nodes v default_kwargs
             = Ok ("  \draw (" +:+ "2" +:+ ") to [align=right,"
                   +:+ tikz_cpt +:+ "," +:+ lbl +:+ "," +:+ args_ +:+ ","
                   +:+ node_str +:+ ",n=" +:+ "V1" +:+ "] (" +:+ "1"
                   +:+ ");" +:+ newline,
                   c'))
  /\ (forall rt : Runtime,
        (In (kroot (cls r)) [cOnePort; cCCS] -> nodes r = ["1"; "2"])
        /\ (kroot (cls r) = cVCS -> take 2 (nodes r) = ["1"; "2"])
        /\ exists tikz_cpt lbl args_ node_str c',
             OnePort_draw sch_with_nodes r default_kwargs
             = Ok ("  \draw (" +:+ "1" +:+ ") to [align=right,"
                   +:+ tikz_cpt +:+ "," +:+ lbl +:+ "," +:+ args_ +:+ ","
                   +:+ node_str +:+ ",n=" +:+ "R1" +:+ "] (" +:+ "2"
                   +:+ ");" +:+ newline,
                   c')).
Proof.
  cbv zeta. split; [split; reflexivity|].
  split; [repeat split; reflexivity|].
  split; [repeat split; reflexivity|].
  split; intros rt.
  - apply (one_port_node_order sch_with_nodes
             (labelled "V" "V" [("dir", "right")] "V1" "5") default_kwargs
             "1" "2" "V" "right" plain_node plain_node "V1" "5");
      reflexivity.
  - apply (one_port_node_order sch_with_nodes
             (labelled "R" "R" [("dir", "right")] "R1" "10") default_kwargs
             "1" "2" "R" "right" plain_node plain_node "R1" "10");
      reflexivity.
Defined.

Lemma one_port_label_witness :
  let sch := sch_with_nodes in
  let c := labelled "R" "R" [("dir", "right")] "R1" "10" in
  let cl := labelled "R" "R" [("dir", "right"); ("l", "load")] "R1" "10" in
  let kw := default_kwargs in
  (label_options c = [] /\ label_options cl = [("l", "load")])
  /\ (dnodes sch c = Ok ["1"; "2"]
   /\ ktikz (cls c) = Some "R"
   /\ Dict.get "dir" (opts c) = Some "right"
   /\ Sch.nodes sch !! "1" = Some plain_node
   /\ Sch.nodes sch !! "2" = Some plain_node
   /\ id_label c = Some "R1"
   /\ value_label c = Some "10")
  /\ (dnodes sch cl = Ok ["1"; "2"]
   /\ ktikz (cls cl) = Some "R"
   /\ Dict.get "dir" (opts cl) = Some "right"
   /\ Sch.nodes sch !! "1" = Some plain_node
   /\ Sch.nodes sch !! "2" = Some plain_node
   /\ id_label cl = Some "R1"
   /\ value_label cl = Some "10")
  /\ (forall rt : Runtime,
        let src := in_tuple (type c) source_types in
        let pos := if src then "^" else "_" in
        let c' :=
          set_opts c
            (qualify_opts pos (if src then "_" else "^") (opts c)) in
        let emitted lbl :=
          Ok ("  \draw (" +:+ (if src then "2" else "1")
              +:+ ") to [align=right,"
              +:+ (if String.eqb (type c) "R" && variable c then "vR"
                   else "R")
              +:+ "," +:+ lbl +:+ ","
              +:+ join "," [args_str c'; voltage_str c'; current_str c']
              +:+ ","
              +:+ (if src then _node_str plain_node plain_node kw
                   else _node_str plain_node plain_node kw)
              +:+ ",n=" +:+ name c +:+ "] (" +:+ (if src then "1" else "2")
              +:+ ");" +:+ newline,
              c') in
        (label_options c = [] ->
         OnePort_draw sch c kw = emitted (spec_default_label kw pos "R1" "10")
         /\ (label_ids kw = true -> label_values kw = true ->
             "R1" <> "" -> "10" <> "" ->
             spec_default_label kw pos "R1" "10"
             = "l" +:+ pos +:+ "={" +:+ "R1" +:+ "=" +:+ "10" +:+ "}")
         /\ (label_ids kw = true -> label_values kw = false -> "R1" <> "" ->
             spec_default_label kw pos "R1" "10" = "l" +:+ pos +:+ "=" +:+ "R1")
         /\ (label_ids kw = false -> label_values kw = false ->
             spec_default_label kw pos "R1" "10" = ""))
        /\ (forall v, label_options c = [("l", v)] ->
              OnePort_draw sch c kw
              = emitted ("l" +:+ pos +:+ "=" +:+ format_label v)))
  /\ (forall rt : Runtime,
        let src := in_tuple (type cl) source_types in
        let pos := if src then "^" else "_" in
        let c' :=
          set_opts cl
            (qualify_opts pos (if src then "_" else "^") (opts cl)) in
        let emitted lbl :=
          Ok ("  \draw (" +:+ (if src then "2" else "1")
              +:+ ") to [align=right,"
              +:+ (if String.eqb (type cl) "R" && variable cl then "vR"
                   else "R")
              +:+ "," +:+ lbl +:+ ","
              +:+ join "," [args_str c'; voltage_str c'; current_str c']
              +:+ ","
              +:+ (if src then _node_str plain_node plain_node kw
                   else _node_str plain_node plain_node kw)
              +:+ ",n=" +:+ name cl +:+ "] (" +:+ (if src then "1" else "2")
              +:+ ");" +:+ newline,
              c') in
        (label_options cl = [] ->
         OnePort_draw sch cl kw = emitted (spec_default_label kw pos "R1" "10")
         /\ (label_ids kw = true -> label_values kw = true ->
             "R1" <> "" -> "10" <> "" ->
             spec_default_label kw pos "R1" "10"
             = "l" +:+ pos +:+ "={" +:+ "R1" +:+ "=" +:+ "10" +:+ "}")
         /\ (label_ids kw = true -> label_values kw = false -> "R1" <> "" ->
             spec_default_label kw pos "R1" "10" = "l" +:+ pos +:+ "=" +:+ "R1")
         /\ (label_ids kw = false -> label_values kw = false ->
             spec_default_label kw pos "R1" "10" = ""))
        /\ (forall v, label_options cl = [("l", v)] ->
              OnePort_draw sch cl kw
              = emitted ("l" +:+ pos +:+ "=" +:+ format_label v))).
Proof.
  cbv zeta. split; [split; reflexivity|].
  split; [repeat split; reflexivity|].
  split; [repeat split; reflexivity|].
  split; intros rt.
  - apply (one_port_label sch_with_nodes
             (labelled "R" "R" [("dir", "right")] "R1" "10") default_kwargs
             "1" "2" "R" plain_node plain_node "R1" "10");
      reflexivity.
  - apply (one_port_label sch_with_nodes
             (labelled "R" "R" [("dir", "right"); ("l", "load")] "R1" "10")
             default_kwargs "1" "2" "R" plain_node plain_node "R1" "10");
      reflexivity.
Defined.

(** * Further properties *)

(** ** Dictionaries *)

Lemma get_set_eq (k v : string) (d : Dict.t) :
  Dict.get k (Dict.set k v d) = Some v.
Proof.
  induction d as [|[k' v'] rest IH]; simpl.
  - rewrite String.eqb_refl. reflexivity.
  - destruct (String.eqb k k') eqn:E; simpl.
    + rewrite String.eqb_refl. reflexivity.
    + rewrite E. exact IH.
Qed.

Lemma get_set_ne (k k2 v : string) (d : Dict.t) :
  String.eqb k k2 = false ->
  Dict.get k (Dict.set k2 v d) = Dict.get k d.
Proof.
  intros Hne. induction d as [|[k' v'] rest IH]; simpl.
  - rewrite Hne. reflexivity.
  - destruct (String.eqb k2 k') eqn:E; simpl.
    + apply String.eqb_eq in E. subst k'. rewrite Hne. reflexivity.
    + rewrite IH. reflexivity.
Qed.

Lemma get_remove_ne (k k1 : string) (d : Dict.t) :
  String.eqb k k1 = false ->
  Dict.get k (Dict.remove k1 d) = Dict.get k d.
Proof.
  intros Hne. induction d as [|[k' v'] rest IH]; simpl; [reflexivity|].
  destruct (String.eqb k1 k') eqn:E; simpl.
  - apply String.eqb_eq in E. subst k'. rewrite Hne. reflexivity.
  - rewrite IH. reflexivity.
Qed.

Lemma get_None_keys (k : string) (d : Dict.t) :
  Dict.get k d = None <-> ~ In k (keys d).
Proof.
  induction d as [|[k' v'] rest IH]; simpl; [tauto|].
  destruct (String.eqb k k') eqn:E.
  - apply String.eqb_eq in E. subst. split; [discriminate | tauto].
  - apply String.eqb_neq in E. rewrite IH. split.
    + intros H [H'|H']; [congruence | tauto].
    + tauto.
Qed.

Lemma keys_remove_subset (k k1 : string) (d : Dict.t) :
  In k (keys (Dict.remove k1 d)) -> In k (keys d).
Proof.
  induction d as [|[k' v'] rest IH]; simpl; [tauto|].
  destruct (String.eqb k1 k'); simpl; tauto.
Qed.

Lemma NoDup_remove (k1 : string) (d : Dict.t) :
  List.NoDup (keys d) -> List.NoDup (keys (Dict.remove k1 d)).
Proof.
  induction d as [|[k' v'] rest IH]; simpl; [auto|].
  intros H. inversion H as [|? ? Hn Hr]; subst.
  destruct (String.eqb k1 k'); simpl; [exact Hr|].
  constructor; [|auto]. intros Hin. apply Hn.
  exact (keys_remove_subset _ _ _ Hin).
Qed.

Lemma get_remove_eq (k : string) (d : Dict.t) :
  List.NoDup (keys d) -> Dict.get k (Dict.remove k d) = None.
Proof.
  induction d as [|[k' v'] rest IH]; simpl; [reflexivity|].
  intros H. inversion H as [|? ? Hn Hr]; subst.
  destruct (String.eqb k k') eqn:E; simpl.
  - apply String.eqb_eq in E. subst k'. apply get_None_keys. exact Hn.
  - rewrite E. auto.
Qed.

Lemma keys_set (k v : string) (d : Dict.t) :
  keys (Dict.set k v d)
  = if Dict.mem k d then keys d else (keys d ++ [k])%list.
Proof.
  unfold Dict.mem. induction d as [|[k' v'] rest IH]; simpl; [reflexivity|].
  destruct (String.eqb k k') eqn:E; simpl.
  - apply String.eqb_eq in E. subst. reflexivity.
  - rewrite IH. destruct (Dict.get k rest); reflexivity.
Qed.

Lemma NoDup_set (k v : string) (d : Dict.t) :
  List.NoDup (keys d) -> List.NoDup (keys (Dict.set k v d)).
Proof.
  intros H. rewrite keys_set. unfold Dict.mem.
  destruct (Dict.get k d) eqn:E; [exact H|].
  apply get_None_keys in E.
  apply NoDup_ListNoDup. apply NoDup_ListNoDup in H.
  apply NoDup_app. split; [exact H|]. split.
  - intros x Hx Hx'. apply list_elem_of_In in Hx.
    apply list_elem_of_In in Hx'. destruct Hx' as [<-|[]]. tauto.
  - apply NoDup_singleton.
Qed.

Section Rename.
Variables k1 k2 : string.
Variable d : Dict.t.
Hypothesis distinct : String.eqb k1 k2 = false.
Hypothesis unique : List.NoDup (keys d).

Lemma NoDup_rename : List.NoDup (keys (Dict.rename k1 k2 d)).
Proof.
  unfold Dict.rename. destruct (Dict.get k1 d); [|exact unique].
  apply NoDup_set, NoDup_remove, unique.
Qed.

Lemma rename_source_gone : Dict.get k1 (Dict.rename k1 k2 d) = None.
Proof.
  unfold Dict.rename. destruct (Dict.get k1 d) eqn:E; [|exact E].
  rewrite get_set_ne by exact distinct. apply get_remove_eq, unique.
Qed.

Lemma rename_moves (x : string) :
  Dict.get k1 d = Some x -> Dict.get k2 (Dict.rename k1 k2 d) = Some x.
Proof.
  intros E. unfold Dict.rename. rewrite E. apply get_set_eq.
Qed.

Lemma rename_other (k : string) :
  String.eqb k k1 = false -> String.eqb k k2 = false ->
  Dict.get k (Dict.rename k1 k2 d) = Dict.get k d.
Proof.
  intros H1 H2. unfold Dict.rename. destruct (Dict.get k1 d); [|reflexivity].
  rewrite get_set_ne, get_remove_ne by assumption. reflexivity.
Qed.

Lemma rename_keeps_absent (k : string) :
  String.eqb k k2 = false ->
  Dict.get k d = None -> Dict.get k (Dict.rename k1 k2 d) = None.
Proof.
  intros H2 E. unfold Dict.rename. destruct (Dict.get k1 d); [|exact E].
  rewrite get_set_ne by assumption.
  apply get_None_keys. intros Hin. apply keys_remove_subset in Hin.
  apply get_None_keys in E. tauto.
Qed.

End Rename.

Lemma rename_absent (k1 k2 : string) (d : Dict.t) :
  Dict.get k1 d = None -> Dict.rename k1 k2 d = d.
Proof. unfold Dict.rename. intros ->. reflexivity. Qed.

(** ** What drawing a one-port does to its options *)

Ltac through_renames :=
  repeat first
    [ assumption
    | apply rename_moves
    | rewrite rename_other by (first [reflexivity | assumption]) ].

Ltac stays_absent :=
  repeat first
    [ apply rename_source_gone;
      [reflexivity | repeat apply NoDup_rename; assumption]
    | apply rename_keeps_absent; [reflexivity|] ].

Lemma qualified_generic_gone (lp vp : string) (o : Dict.t) :
  In lp ["^"; "_"] -> In vp ["^"; "_"] -> List.NoDup (keys o) ->
  forall k, In k generic_keys -> Dict.get k (qualify_opts lp vp o) = None.
Proof.
  intros Hlp Hvp Hu k Hk. unfold qualify_opts. simpl in Hlp, Hvp, Hk.
  destruct Hlp as [<- | [<- | []]]; destruct Hvp as [<- | [<- | []]];
    cbn [String.append];
    destruct Hk as [<- | [<- | [<- | [<- | [<- | []]]]]]; stays_absent.
Qed.

Lemma qualified_others_kept (lp vp : string) (o : Dict.t) :
  In lp ["^"; "_"] -> In vp ["^"; "_"] ->
  forall k,
    in_tuple k (generic_keys ++ qualified_keys lp vp) = false ->
    Dict.get k (qualify_opts lp vp o) = Dict.get k o.
Proof.
  intros Hlp Hvp k Hk. unfold qualify_opts. simpl in Hlp, Hvp.
  destruct Hlp as [<- | [<- | []]]; destruct Hvp as [<- | [<- | []]];
    cbn [String.append];
    unfold in_tuple in Hk; simpl in Hk;
    repeat (apply orb_false_elim in Hk; destruct Hk as [? Hk]);
    through_renames; reflexivity.
Qed.

(** X1. The options of a one-port after [draw] has qualified them, for
    a dictionary with distinct keys: the keys stay distinct; none of the
    generic keys v, vr, i, ir, l is left; the value of each generic key
    is found under its qualified key (replacing what that key held);
    every other key keeps its value. *)
Theorem draw_qualifies_options (lp vp : string) (o : Dict.t) :
  In lp ["^"; "_"] ->
  In vp ["^"; "_"] ->
  List.NoDup (keys o) ->
  let q := qualify_opts lp vp o in
  List.NoDup (keys q)
  /\ (forall k, In k generic_keys -> Dict.get k q = None)
  /\ (forall k k' x,
        In (k, k') (combine generic_keys (qualified_keys lp vp)) ->
        Dict.get k o = Some x -> Dict.get k' q = Some x)
  /\ (forall k,
        in_tuple k (generic_keys ++ qualified_keys lp vp) = false ->
        Dict.get k q = Dict.get k o).
Proof.
  intros Hlp Hvp Hu. cbv zeta.
  split; [unfold qualify_opts; repeat apply NoDup_rename; exact Hu|].
  split; [apply qualified_generic_gone; assumption|].
  split; [|apply qualified_others_kept; assumption].
  unfold qualify_opts. simpl in Hlp, Hvp.
  destruct Hlp as [<- | [<- | []]]; destruct Hvp as [<- | [<- | []]];
    cbn [String.append];
    intros k k' x Hin Hk; simpl in Hin;
    destruct Hin as [[= <- <-] | [[= <- <-] | [[= <- <-] | [[= <- <-]
                    | [[= <- <-] | []]]]]]; through_renames.
Qed.

Lemma qualify_without_generic (lp vp : string) (q : Dict.t) :
  (forall k, In k generic_keys -> Dict.get k q = None) ->
  qualify_opts lp vp q = q.
Proof.
  intros H. unfold qualify_opts.
  rewrite (rename_absent "v" _ q) by (apply H; simpl; auto).
  rewrite (rename_absent "vr" _ q) by (apply H; simpl; auto).
  rewrite (rename_absent "i" _ q) by (apply H; simpl; auto).
  rewrite (rename_absent "ir" _ q) by (apply H; simpl; auto).
  rewrite (rename_absent "l" _ q) by (apply H; simpl; auto 6).
  reflexivity.
Qed.

Lemma sides_cases (c : Cpt) (d : string) :
  In (label_side c d) ["^"; "_"] /\ In (voltage_side c d) ["^"; "_"].
Proof.
  unfold voltage_side, label_side.
  destruct (in_tuple (type c) source_types);
    [destruct (in_tuple d ["left"; "right"])
    |destruct (in_tuple d ["left"; "down"])]; simpl; auto.
Qed.

Section DrawTwice.
Context {rt : Runtime}.

(** Where a successful [draw] leaves the component. *)
Lemma OnePort_draw_result (sch : Sch.t) (c c' : Cpt) (kw : kwargs) (s : string) :
  OnePort_draw sch c kw = Ok (s, c') ->
  exists d,
    Dict.get "dir" (opts c) = Some d
    /\ c' = set_opts c
              (qualify_opts (label_side c d) (voltage_side c d) (opts c)).
Proof.
  unfold OnePort_draw, horizontal, vertical, Dict.getitem, voltage_side,
    label_side.
  destruct (dnodes sch c) as [ns|];
    cbn -[lookup String.append in_tuple qualify_opts command];
    [|discriminate].
  destruct (unpack2 ns) as [[n1 n2]|];
    cbn -[lookup String.append in_tuple qualify_opts command];
    [|discriminate].
  destruct (ktikz (cls c));
    cbn -[lookup String.append in_tuple qualify_opts command];
    [|discriminate].
  destruct (Dict.get "dir" (opts c)) as [d|];
    [|destruct (in_tuple (type c) source_types); discriminate].
  intros H. exists d. split; [reflexivity|]. revert H.
  destruct (in_tuple (type c) source_types);
    cbn -[lookup String.append in_tuple qualify_opts command];
    [destruct (in_tuple d ["left"; "right"])
    |destruct (in_tuple d ["left"; "down"])];
    cbn -[lookup String.append in_tuple qualify_opts command];
    unfold getitem.
  all: repeat (match goal with
               | |- context [Sch.nodes ?s0 !! ?n] =>
                   destruct (Sch.nodes s0 !! n)
               end;
               cbn -[lookup String.append in_tuple qualify_opts command]);
    try discriminate.
  all: match goal with
    | |- context [OnePort_default_label ?x ?y ?z] =>
        destruct (OnePort_default_label x y z);
        cbn -[lookup String.append in_tuple qualify_opts command];
        [|discriminate]
    end.
  all: intros [= _ <-]; reflexivity.
Qed.

(** [draw] reads the options only through the drawn nodes, the
    [variable] flag, the orientation and the qualified options. *)
Lemma OnePort_draw_reads (sch : Sch.t) (c : Cpt) (kw : kwargs) (o2 : Dict.t) :
  dnodes sch (set_opts c o2) = dnodes sch c ->
  Dict.mem "variable" o2 = Dict.mem "variable" (opts c) ->
  Dict.get "dir" o2 = Dict.get "dir" (opts c) ->
  (forall d, Dict.get "dir" (opts c) = Some d ->
     qualify_opts (label_side c d) (voltage_side c d) o2
     = qualify_opts (label_side c d) (voltage_side c d) (opts c)) ->
  OnePort_draw sch (set_opts c o2) kw = OnePort_draw sch c kw.
Proof.
  intros Hdn Hvar Hdir Hq.
  unfold OnePort_draw, horizontal, vertical, variable, Dict.getitem.
  rewrite Hdn. cbn [set_opts cls type opts name]. rewrite Hvar, Hdir.
  destruct (dnodes sch c) as [ns|]; [|reflexivity].
  cbn -[lookup String.append in_tuple qualify_opts command].
  destruct (unpack2 ns) as [[n1 n2]|]; [|reflexivity].
  cbn -[lookup String.append in_tuple qualify_opts command].
  destruct (ktikz (cls c)); [|reflexivity].
  cbn -[lookup String.append in_tuple qualify_opts command].
  destruct (Dict.get "dir" (opts c)) as [d|] eqn:Ed;
    [|destruct (in_tuple (type c) source_types); reflexivity].
  specialize (Hq d eq_refl). unfold voltage_side, label_side in Hq.
  destruct (in_tuple (type c) source_types);
    cbn -[lookup String.append in_tuple qualify_opts command];
    [destruct (in_tuple d ["left"; "right"])
    |destruct (in_tuple d ["left"; "down"])];
    cbn -[lookup String.append in_tuple qualify_opts command] in *;
    rewrite Hq; reflexivity.
Qed.

(** X2. Drawing a one-port rewrites its options once: when [draw] has
    succeeded on a component whose option keys are distinct, drawing the
    component it left behind gives the same command and leaves that
    component as it is. *)
Theorem draw_twice (sch : Sch.t) (c c' : Cpt) (kw : kwargs) (s : string) :
  List.NoDup (keys (opts c)) ->
  OnePort_draw sch c kw = Ok (s, c') ->
  OnePort_draw sch c' kw = Ok (s, c').
Proof.
  intros Hu Hdraw.
  destruct (OnePort_draw_result sch c c' kw s Hdraw) as (d & Hd & ->).
  destruct (sides_cases c d) as [Hlp Hvp].
  pose proof (qualified_generic_gone _ _ (opts c) Hlp Hvp Hu) as Hgone.
  pose proof (qualified_others_kept _ _ (opts c) Hlp Hvp) as Hkeep.
  set (lp := label_side c d) in *. set (vp := voltage_side c d) in *.
  assert (Hk : forall k,
             in_tuple k ["dir"; "variable"; "implicit"; "ground"; "sground"]
             = true ->
             Dict.get k (qualify_opts lp vp (opts c)) = Dict.get k (opts c)).
  { intros k Hk. apply Hkeep.
    simpl in Hlp, Hvp.
    destruct Hlp as [<- | [<- | []]]; destruct Hvp as [<- | [<- | []]];
      unfold in_tuple in Hk; simpl in Hk;
      repeat (apply orb_true_elim in Hk; destruct Hk as [Hk|Hk];
              [apply String.eqb_eq in Hk; subst k; reflexivity|]);
      discriminate Hk. }
  rewrite <- Hdraw. apply OnePort_draw_reads.
  - unfold dnodes, vnodes, Wire_vnodes, implicit, Dict.mem.
    cbn [set_opts cls opts nodes].
    rewrite !Hk by reflexivity. reflexivity.
  - unfold Dict.mem. rewrite Hk by reflexivity. reflexivity.
  - apply Hk. reflexivity.
  - intros d' Hd'. rewrite Hd in Hd'. injection Hd' as <-. fold lp vp.
    apply qualify_without_generic. exact Hgone.
Qed.

End DrawTwice.

(** ** Transformed coordinates *)

Section TransformedFacts.
Context {rt : Runtime}.

(** X3. Transformed coordinates are computed once: after a first
    successful [tcoords], the component returns the same array whatever
    its options are changed to, orientation and mirror included. *)
Theorem tcoords_cached (c c' : Cpt) (t : ndarray) :
  tcoords c = Ok (t, c') ->
  forall o : Dict.t, tcoords (set_opts c' o) = Ok (t, set_opts c' o).
Proof.
  intros H o.
  assert (Hc : _tcoords c' = Some t).
  { unfold tcoords in H. destruct (_tcoords c) eqn:E.
    - injection H as <- <-. exact E.
    - destruct (coords c); simpl in H; [|discriminate].
      destruct (R c); simpl in H; [|discriminate].
      destruct (np_dot _ _); simpl in H; [|discriminate].
      injection H as <- <-. reflexivity. }
  unfold tcoords. cbn [set_opts _tcoords]. rewrite Hc. reflexivity.
Qed.

Lemma R_cardinal (c : Cpt) (d : string) (a : Z) :
  Dict.get "dir" (opts c) = Some d ->
  spec_angle d = Some a ->
  Dict.mem "rotate" (opts c) = false ->
  R c = Ok (IntArr (rotation a)).
Proof.
  intros Hd Ha Hr. unfold R. rewrite (angle_cardinal c d a Hd Ha Hr).
  destruct (spec_angle_cases d a Ha) as [[-> ->]|[[-> ->]|[[-> ->]|[-> ->]]]];
    reflexivity.
Qed.

(** The coordinate tables a component can have. *)
Lemma coords_tables (c : Cpt) (xy : list (num * num)) :
  coords c = Ok xy ->
  In xy [Transistor_npos; Transistor_ppos; JFET_npos; JFET_ppos;
         MOSFET_npos; MOSFET_ppos; TwoPort_coords; OnePort_coords;
         Opamp_npos; Opamp_ppos; FDOpamp_npos; FDOpamp_ppos;
         SPDT_coords; Logic_coords; [(PyInt 0, PyInt 0)]].
Proof.
  unfold coords, Transistor_coords, Opamp_coords, FDOpamp_coords, Wire_coords.
  destruct (kroot (cls c)); try discriminate;
    try destruct (in_tuple (classname c) _); try destruct (mirror c);
    try destruct (implicit c);
    intros [= <-]; simpl; auto 20.
Qed.

(** X4. For a component drawn in one of the four cardinal directions,
    with no [rotate] option and nothing cached, the transformed
    coordinates are its local coordinates turned with the direction:
    unchanged to the right, (-x, -y) to the left, (-y, x) up and
    (y, -x) down. *)
Theorem tcoords_turns_coords (c : Cpt) (d : string) (xy : list (num * num)) :
  Dict.get "dir" (opts c) = Some d ->
  cardinal d = true ->
  Dict.mem "rotate" (opts c) = false ->
  _tcoords c = None ->
  coords c = Ok xy ->
  exists t,
    tcoords c = Ok (t, set_tcoords c t)
    /\ same_points (array_points t) (map (turn d) xy) = true.
Proof.
  intros Hd Hc Hr Hcache Hxy.
  assert (Ha : exists a, spec_angle d = Some a).
  { unfold cardinal, in_tuple in Hc. simpl in Hc. unfold spec_angle. simpl.
    destruct (String.eqb d "right"); [eauto|].
    destruct (String.eqb d "down"); [eauto|].
    destruct (String.eqb d "left"); [eauto|].
    destruct (String.eqb d "up"); [eauto|discriminate]. }
  destruct Ha as [a Ha].
  pose proof (R_cardinal c d a Hd Ha Hr) as HR.
  pose proof (coords_tables c xy Hxy) as Hin.
  unfold tcoords. rewrite Hcache, Hxy, HR. clear Hd Hr Hcache Hxy HR Hc.
  destruct (spec_angle_cases d a Ha) as [[-> ->]|[[-> ->]|[[-> ->]|[-> ->]]]];
    simpl in Hin;
    repeat (destruct Hin as [<- | Hin];
            [eexists; split; [vm_compute; reflexivity | vm_compute; reflexivity]|]);
    destruct Hin.
Qed.

End TransformedFacts.

(** ** Layout of one-ports and two-ports *)

Section LayoutByDirection.
Context {rt : Runtime}.

Lemma size_default (c : Cpt) :
  Dict.mem "size" (opts c) = false -> size c = Ok 1%float.
Proof.
  unfold size, Dict.mem. destruct (Dict.get "size" (opts c));
    [discriminate | reflexivity].
Qed.

Ltac run_layout Hcache Hxy HR Hn Hs :=
  unfold xlink, ylink, xplace, yplace, xvals, yvals, tcoords;
  rewrite ?Hs, Hcache, Hxy, HR;
  cbn -[dnodes set_tcoords];
  rewrite dnodes_set_tcoords, Hn; reflexivity.

(** X5. A component with the two local points of a one-port, drawn
    nodes [a], [b], unit size and a cardinal direction: along the
    direction the second node is placed one unit from the first (to the
    right, to the left, up or down) and the two are not linked; across
    it they are linked and placed zero apart. *)
Theorem one_port_layout (sch : Sch.t) (c : Cpt) (d a b : string)
    (g : list call) :
  coords c = Ok [(PyInt 0, PyInt 0); (PyInt 1, PyInt 0)] ->
  dnodes sch c = Ok [a; b] ->
  Dict.get "dir" (opts c) = Some d ->
  cardinal d = true ->
  Dict.mem "rotate" (opts c) = false ->
  Dict.mem "size" (opts c) = false ->
  _tcoords c = None ->
  let dx := (one_port_step d).1 in
  let dy := (one_port_step d).2 in
  let c' := set_tcoords c (IntArr [[0; 0]; [dx; dy]]) in
  xlink sch c g = Ok (if dx =? 0 then g ++ [Link a b] else g, c')%list
  /\ ylink sch c g = Ok (if dy =? 0 then g ++ [Link a b] else g, c')%list
  /\ xplace sch c g = Ok (g ++ [Add a b (float_of_int dx)], c')%list
  /\ yplace sch c g = Ok (g ++ [Add a b (float_of_int dy)], c')%list.
Proof.
  intros Hxy Hn Hd Hc Hr Hsz Hcache. cbv zeta.
  assert (Ha : exists k, spec_angle d = Some k).
  { unfold cardinal, in_tuple in Hc. simpl in Hc. unfold spec_angle. simpl.
    destruct (String.eqb d "right"); [eauto|].
    destruct (String.eqb d "down"); [eauto|].
    destruct (String.eqb d "left"); [eauto|].
    destruct (String.eqb d "up"); [eauto|discriminate]. }
  destruct Ha as [k Ha].
  pose proof (R_cardinal c d k Hd Ha Hr) as HR.
  pose proof (size_default c Hsz) as Hs.
  destruct (spec_angle_cases d k Ha) as [[-> ->]|[[-> ->]|[[-> ->]|[-> ->]]]];
    repeat split; run_layout Hcache Hxy HR Hn Hs.
Qed.

(** X6. A component with the four local points of a two-port and drawn
    nodes [n1], [n2], [n3], [n4] (for a mutual coupling, the nodes of
    its first inductor, then of its second). Drawn to the right or to
    the left, [xlink] puts [n1], [n2] on one vertical line and [n3],
    [n4] on another, and [ylink] puts [n1], [n3] on one horizontal line
    and [n2], [n4] on another; drawn up or down, the two roles are
    exchanged. *)
Theorem two_port_links (sch : Sch.t) (c : Cpt) (d n1 n2 n3 n4 : string)
    (g : list call) :
  coords c = Ok TwoPort_coords ->
  dnodes sch c = Ok [n1; n2; n3; n4] ->
  Dict.get "dir" (opts c) = Some d ->
  cardinal d = true ->
  Dict.mem "rotate" (opts c) = false ->
  _tcoords c = None ->
  let along := [Link n1 n2; Link n3 n4] in
  let across := [Link n1 n3; Link n2 n4] in
  let sideways := in_tuple d ["left"; "right"] in
  (fst <$> xlink sch c g) = Ok (g ++ if sideways then along else across)%list
  /\ (fst <$> ylink sch c g)
     = Ok (g ++ if sideways then across else along)%list.
Proof.
  intros Hxy Hn Hd Hc Hr Hcache. cbv zeta.
  assert (Ha : exists k, spec_angle d = Some k).
  { unfold cardinal, in_tuple in Hc. simpl in Hc. unfold spec_angle. simpl.
    destruct (String.eqb d "right"); [eauto|].
    destruct (String.eqb d "down"); [eauto|].
    destruct (String.eqb d "left"); [eauto|].
    destruct (String.eqb d "up"); [eauto|discriminate]. }
  destruct Ha as [k Ha].
  pose proof (R_cardinal c d k Hd Ha Hr) as HR.
  destruct (spec_angle_cases d k Ha) as [[-> ->]|[[-> ->]|[[-> ->]|[-> ->]]]];
    split;
    unfold xlink, ylink, xvals, yvals, tcoords;
    rewrite Hcache, Hxy, HR;
    cbn -[dnodes set_tcoords];
    rewrite dnodes_set_tcoords, Hn; cbv -[app set_tcoords];
    rewrite <- ?app_assoc; reflexivity.
Qed.

End LayoutByDirection.

(** ** Drawn nodes without coordinates *)

Section VisitBounds.
Variable emit : string -> string -> num -> num -> list call.
Variable vals : list num.

Lemma visit_from_short (m1 : nat) (n1 : string) :
  forall (rest : list string) (m2 : nat) (g : list call),
    (m1 < m2)%nat -> rest <> [] ->
    (length vals < m2 + length rest)%nat ->
    visit_from emit vals m1 n1 m2 rest g = Raise IndexError.
Proof.
  induction rest as [|n2 rest IH]; intros m2 g Hlt Hne Hlen; [congruence|].
  simpl in *. unfold index.
  destruct (vals !! m2) as [v2|] eqn:E2; [|reflexivity].
  apply lookup_lt_Some in E2.
  destruct (lookup_lt_is_Some_2 vals m1) as [v1 E1]; [lia|].
  rewrite E1. simpl. apply IH; [lia | | lia].
  intros ->. simpl in Hlen. lia.
Qed.

Lemma visit_all_IndexError (ns : list string) (g : list call) :
  visit_all emit vals 0 ns g = Raise IndexError
  <-> (2 <= length ns /\ length vals < length ns)%nat.
Proof.
  split.
  - intros H.
    destruct (decide (length ns <= length vals)%nat) as [Hle|Hgt].
    + destruct (visit_all_spec emit vals ns 0%nat g) as (calls & Hok & _);
        [simpl; lia|]. congruence.
    + split; [|lia].
      destruct ns as [|n1 [|n2 rest]]; simpl in *; try discriminate H. lia.
  - intros [H2 Hlen]. destruct ns as [|n1 rest]; simpl in *; [lia|].
    rewrite visit_from_short; [reflexivity | lia | | lia].
    intros ->. simpl in H2. lia.
Qed.

End VisitBounds.

Section LayoutBounds.
Context {rt : Runtime}.

(** X7. With the coordinates, the drawn nodes and the size available,
    each of [xlink], [ylink], [xplace], [yplace] fails exactly when the
    component has at least two drawn nodes and more drawn nodes than
    coordinate points, and then with [IndexError]; in every other case
    it returns. *)
Theorem layout_needs_a_point_per_node (sch : Sch.t) (c cx cy : Cpt)
    (g : list call) (xs ys : list num) (ns : list string) (sz : float) :
  xvals c = Ok (xs, cx) ->
  yvals c = Ok (ys, cy) ->
  dnodes sch c = Ok ns ->
  size c = Ok sz ->
  let short vals := (2 <= length ns /\ length vals < length ns)%nat in
  (short xs -> xlink sch c g = Raise IndexError
               /\ xplace sch c g = Raise IndexError)
  /\ (short ys -> ylink sch c g = Raise IndexError
                  /\ yplace sch c g = Raise IndexError)
  /\ (~ short xs -> exists l p, xlink sch c g = Ok (l, cx)
                                /\ xplace sch c g = Ok (p, cx))
  /\ (~ short ys -> exists l p, ylink sch c g = Ok (l, cy)
                                /\ yplace sch c g = Ok (p, cy)).
Proof.
  intros Hx Hy Hn Hs. cbv zeta.
  pose proof (xvals_dnodes sch c cx xs Hx) as Hdx. rewrite Hn in Hdx.
  pose proof (yvals_dnodes sch c cy ys Hy) as Hdy. rewrite Hn in Hdy.
  unfold xlink, ylink, xplace, yplace. rewrite Hx, Hy, Hs. simpl.
  rewrite Hdx, Hdy. simpl.
  rewrite !link_all_visit, !place_all_visit.
  pose proof (visit_all_IndexError emit_link xs ns g) as Lx.
  pose proof (visit_all_IndexError emit_link ys ns g) as Ly.
  pose proof (visit_all_IndexError (emit_place sz) xs ns g) as Px.
  pose proof (visit_all_IndexError (emit_place sz) ys ns g) as Py.
  assert (Hok : forall emit vals,
            ~ (2 <= length ns /\ length vals < length ns)%nat ->
            exists calls, visit_all emit vals 0 ns g = Ok calls).
  { intros emit vals Hnot.
    destruct (decide (length ns <= length vals)%nat) as [Hle|Hgt].
    - destruct (visit_all_spec emit vals ns 0%nat g) as (calls & Hok & _);
        [simpl; lia|]. eauto.
    - destruct ns as [|n1 [|n2 rest]]; simpl in *; eauto. lia. }
  repeat split.
  - apply Lx in H. rewrite H. reflexivity.
  - apply Px in H. rewrite H. reflexivity.
  - apply Ly in H. rewrite H. reflexivity.
  - apply Py in H. rewrite H. reflexivity.
  - intros Hnot.
    destruct (Hok emit_link xs Hnot) as [l ->].
    destruct (Hok (emit_place sz) xs Hnot) as [p ->]. simpl. eauto.
  - intros Hnot.
    destruct (Hok emit_link ys Hnot) as [l ->].
    destruct (Hok (emit_place sz) ys Hnot) as [p ->]. simpl. eauto.
Qed.

End LayoutBounds.

(** ** Visible nodes *)

(** X8. The visible nodes of a component are a sublist of its nodes, in
    their order: the first two for a voltage-controlled source class,
    all but the second for an op-amp, the first alone for an implicit
    wire, and all of them otherwise. Asking for them fails only for an
    op-amp or an implicit wire that has no node at all, with
    [IndexError]. *)
Theorem vnodes_sublist (c : Cpt) :
  let needs_first :=
    match kroot (cls c) with
    | cOpamp => true
    | cWire => implicit c
    | _ => false
    end in
  (nodes c = [] -> needs_first = true -> vnodes c = Raise IndexError)
  /\ (nodes c <> [] \/ needs_first = false ->
      exists vs,
        vnodes c = Ok vs
        /\ sublist vs (nodes c)
        /\ vs = match kroot (cls c) with
                | cVCS => take 2 (nodes c)
                | cOpamp => take 1 (nodes c) ++ drop 2 (nodes c)
                | cWire => if implicit c then take 1 (nodes c) else nodes c
                | _ => nodes c
                end%list).
Proof.
  cbv zeta. unfold vnodes, Cpt_vnodes, VCS_vnodes, Opamp_vnodes, Wire_vnodes.
  split.
  - intros Hn. rewrite Hn.
    destruct (kroot (cls c)); try discriminate; [reflexivity|].
    intros ->. reflexivity.
  - intros H.
    destruct (kroot (cls c)); try destruct (implicit c);
      try (eexists; split; [reflexivity|]; split;
           [first [reflexivity | apply sublist_take] | reflexivity]);
      destruct (nodes c) as [|n0 rest] eqn:E;
      try (destruct H as [H|H]; [congruence | discriminate H]);
      simpl; eexists; (split; [reflexivity|]); (split; [|reflexivity]);
      first [apply sublist_skip, sublist_drop
            |apply sublist_skip, sublist_nil_l].
Qed.

(** ** The registry and [make] *)

Lemma module_classes_names :
  map_Forall (fun n k => kname k = n /\ ktikz k = None) module_classes.
Proof. refine (bool_decide_unpack _ _). vm_compute. reflexivity. Qed.


Lemma classes_tikz :
  map_Forall
    (fun n k =>
       In (kroot k) [cOnePort; cVCS; cCCS; cWire] -> is_Some (ktikz k))
    classes.
Proof.
  assert (H : map_Forall
                (fun n k =>
                   match kroot k, ktikz k with
                   | (cOnePort | cVCS | cCCS | cWire), None => false
                   | _, _ => true
                   end = true)
                classes)
    by (refine (bool_decide_unpack _ _); vm_compute; reflexivity).
  intros n k Hk Hin. specialize (H n k Hk). cbv beta in H.
  destruct (ktikz k); [eauto|].
  simpl in Hin.
  destruct Hin as [E | [E | [E | [E | []]]]]; rewrite <- E in H;
    discriminate H.
Qed.






Section RegisteredDraw.
Context {rt : Runtime}.

Lemma default_label_errors (c : Cpt) (kw : kwargs) (pos : string) (e : exn) :
  OnePort_default_label c kw pos = Raise e ->
  e = AttributeError "id_label" \/ e = AttributeError "value_label".
Proof.
  unfold OnePort_default_label, getattr.
  destruct (label_ids kw), (label_values kw), (id_label c) as [il|],
    (value_label c) as [vl|]; cbn -[String.append];
    try destruct (String.eqb il ""); cbn -[String.append];
    try destruct (String.eqb vl ""); cbn -[String.append];
    intros H; try discriminate H; injection H as <-; auto.
Qed.

(** X10. Every class that [defcpt] registers on a one-port base has a
    [tikz_cpt], so drawing an instance of a registered one-port class
    never fails for want of that attribute; an instance of a class of
    the module itself (OnePort, VCS, CCS, Wire used directly) with two
    drawn nodes fails with [AttributeError] on [tikz_cpt]. *)
Theorem registered_one_ports_draw (n : string) (k : klass) (sch : Sch.t)
    (c : Cpt) (kw : kwargs) :
  cls c = k ->
  (classes !! n = Some k ->
   In (kroot k) [cOnePort; cVCS; cCCS; cWire] ->
   is_Some (ktikz k)
   /\ OnePort_draw sch c kw <> Raise (AttributeError "tikz_cpt"))
  /\ (module_classes !! n = Some k ->
      forall a b, dnodes sch c = Ok [a; b] ->
        OnePort_draw sch c kw = Raise (AttributeError "tikz_cpt")).
Proof.
  intros Hcls. split.
  - intros Hk Hroot. pose proof (classes_tikz n k Hk Hroot) as [t Ht].
    split; [eauto|]. intros Hbad. revert Hbad.
    unfold OnePort_draw, horizontal, vertical, Dict.getitem, getitem.
    rewrite Hcls, Ht.
    destruct (dnodes sch c) as [ns|e] eqn:Ed.
    + cbn -[lookup String.append in_tuple qualify_opts command].
      destruct ns as [|n1 [|n2 [|n3 ns]]];
        cbn -[lookup String.append in_tuple qualify_opts command];
        try discriminate.
      destruct (Dict.get "dir" (opts c)) as [d|];
        [|destruct (in_tuple (type c) source_types); discriminate].
      destruct (in_tuple (type c) source_types);
        cbn -[lookup String.append in_tuple qualify_opts command];
        [destruct (in_tuple d ["left"; "right"])
        |destruct (in_tuple d ["left"; "down"])];
        cbn -[lookup String.append in_tuple qualify_opts command].
      all: repeat (match goal with
                   | |- context [Sch.nodes ?s0 !! ?x] =>
                       destruct (Sch.nodes s0 !! x)
                   end;
                   cbn -[lookup String.append in_tuple qualify_opts command]);
        try discriminate.
      all: match goal with
           | |- context [OnePort_default_label ?x ?y ?z] =>
               destruct (OnePort_default_label x y z) as [?|e] eqn:El;
               cbn -[lookup String.append in_tuple qualify_opts command];
               [discriminate|]
           end.
      all: intros [= ->];
        destruct (default_label_errors _ _ _ _ El); discriminate.
    + cbn [mbind result_bind]. intros [= ->].
      unfold dnodes, vnodes, Cpt_vnodes, VCS_vnodes, Wire_vnodes, index
        in Ed.
      rewrite Hcls in Ed. simpl in Hroot.
      destruct Hroot as [E | [E | [E | [E | []]]]]; rewrite <- E in Ed;
        try discriminate Ed.
      destruct (implicit c); [|discriminate Ed].
      destruct (nodes c !! 0%nat); discriminate Ed.
  - intros Hk a b Hd.
    pose proof (proj2 (module_classes_names n k Hk)) as Ht.
    unfold OnePort_draw. rewrite Hd, Hcls, Ht. reflexivity.
Qed.

End RegisteredDraw.

(** ** Labels and node markers *)

Lemma only_key (k v : string) (d : Dict.t) :
  List.NoDup (keys d) ->
  Dict.get k d = Some v ->
  List.filter (fun kv => in_tuple kv.1 [k]) d = [(k, v)].
Proof.
  unfold in_tuple. induction d as [|[k' v'] rest IH]; simpl; [discriminate|].
  intros Hu. inversion Hu as [|? ? Hn Hr]; subst.
  rewrite orb_false_r, (String.eqb_sym k' k).
  destruct (String.eqb k k') eqn:E.
  - apply String.eqb_eq in E. subst k'. intros [= ->]. f_equal.
    apply get_None_keys in Hn.
    clear -Hn. induction rest as [|[k2 v2] rest IH]; simpl in *; [reflexivity|].
    rewrite orb_false_r, (String.eqb_sym k2 k).
    destruct (String.eqb k k2); [discriminate|]. auto.
  - intros Hg. auto.
Qed.

Lemma no_key (k : string) (d : Dict.t) :
  Dict.get k d = None ->
  List.filter (fun kv => in_tuple kv.1 [k]) d = [].
Proof.
  unfold in_tuple. induction d as [|[k' v'] rest IH]; simpl; [reflexivity|].
  rewrite orb_false_r, (String.eqb_sym k' k).
  destruct (String.eqb k k'); [discriminate|]. auto.
Qed.

Section LabelMethod.
Context {rt : Runtime}.

(** X11. [Cpt.label] on a component whose option keys are distinct.
    With [label_values] on it needs [default_label] and fails with
    [AttributeError] without it, whether or not a label option is
    given. Otherwise the label is the formatted [l] option when there is
    one and it does not format to the empty string, and else the default
    label, which is empty when [label_values] is off. *)
Theorem label_resolution (c : Cpt) (kw : kwargs) :
  List.NoDup (keys (opts c)) ->
  (label_values kw = true -> default_label c = None ->
   label c kw = Raise (AttributeError "default_label"))
  /\ (forall dflt,
        (if label_values kw then default_label c = Some dflt else dflt = "") ->
        label c kw =
          Ok (match Dict.get "l" (opts c) with
              | Some v =>
                  if String.eqb (format_label v) "" then dflt
                  else format_label v
              | None => dflt
              end)).
Proof.
  intros Hu. unfold label. split.
  - intros -> ->. reflexivity.
  - intros dflt Hd.
    assert (E : (if label_values kw
                 then getattr "default_label" (default_label c)
                 else Ok "") = Ok dflt).
    { destruct (label_values kw); [rewrite Hd | subst dflt]; reflexivity. }
    rewrite E. cbn [mbind result_bind].
    destruct (Dict.get "l" (opts c)) as [v|] eqn:El.
    + rewrite (only_key "l" v (opts c) Hu El). reflexivity.
    + rewrite (no_key "l" (opts c) El). reflexivity.
Qed.

End LabelMethod.

Section MarkerFacts.
Variable node_name : Node -> string.

Lemma draw_each_off (sch : Sch.t) (kw : kwargs) (ns : list string) (s : string) :
  draw_nodes kw = false -> draw_each node_name sch ns kw s = Ok s.
Proof.
  intros Hoff. revert s. induction ns as [|n rest IH]; intros s; simpl.
  - reflexivity.
  - unfold _draw_node. rewrite Hoff. simpl. rewrite IH.
    f_equal. clear. induction s as [|a s IHs]; [reflexivity|].
    change (String a (s +:+ "") = String a s). f_equal. exact IHs.
Qed.

Lemma draw_each_missing (sch : Sch.t) (kw : kwargs) (n : string)
    (post : list string) :
  draw_nodes kw = true -> Sch.nodes sch !! n = None ->
  forall (pre : list string) (s : string),
    Forall (fun x => is_Some (Sch.nodes sch !! x)) pre ->
    draw_each node_name sch (pre ++ n :: post) kw s = Raise (KeyError n).
Proof.
  intros Hon Hn. induction pre as [|x pre IH]; intros s Hpre; simpl.
  - unfold _draw_node, getitem. rewrite Hon, Hn. reflexivity.
  - inversion Hpre as [|? ? [nd Hx] Hrest]; subst.
    unfold _draw_node at 1. unfold getitem. rewrite Hon, Hx. simpl.
    destruct (visible nd true); simpl; [destruct (port nd); simpl|];
      apply IH; exact Hrest.
Qed.

(** X12. With [draw_nodes] off, [_draw_nodes] writes nothing and looks
    no node up: it returns the empty string even for drawn nodes the
    schematic does not know. With [draw_nodes] on, the first drawn node
    missing from the schematic makes it fail with [KeyError] on that
    node. *)
Theorem draw_nodes_lookup (sch : Sch.t) (c : Cpt) (kw : kwargs)
    (ns : list string) :
  dnodes sch c = Ok ns ->
  (draw_nodes kw = false -> _draw_nodes node_name sch c kw = Ok "")
  /\ (draw_nodes kw = true ->
      forall pre n post,
        ns = (pre ++ n :: post)%list ->
        Forall (fun x => is_Some (Sch.nodes sch !! x)) pre ->
        Sch.nodes sch !! n = None ->
        _draw_nodes node_name sch c kw = Raise (KeyError n)).
Proof.
  intros Hd. unfold _draw_nodes. rewrite Hd. cbn [mbind result_bind]. split.
  - intros Hoff. apply draw_each_off. exact Hoff.
  - intros Hon pre n post -> Hpre Hn. apply draw_each_missing; assumption.
Qed.

End MarkerFacts.

(** ** Construction *)

Lemma split_head_prefix (s : string) :
  exists rest,
    s = split_head ";" s +:+ rest
    /\ (rest = "" \/ exists r, rest = String ";" r).
Proof.
  induction s as [|a s IH]; simpl.
  - exists "". auto.
  - destruct (Ascii.eqb a ";") eqn:E.
    + apply Ascii.eqb_eq in E. subst a. exists (String ";" s). simpl. eauto.
    + destruct IH as (rest & Hs & Hr). exists rest.
      change (String a s = String a (split_head ";" s +:+ rest)
              /\ (rest = "" \/ exists r, rest = String ";" r)).
      rewrite <- Hs. auto.
Qed.

Lemma split_head_clean (s : string) (i : nat) :
  String.get i (split_head ";" s) <> Some ";"%char.
Proof.
  revert i. induction s as [|a s IH]; intros i; simpl; [discriminate|].
  destruct (Ascii.eqb a ";") eqn:E; simpl; [discriminate|].
  destruct i as [|i]; [|apply IH].
  apply Ascii.eqb_neq in E. congruence.
Qed.

(** X13. The [net] of a component is the text it was constructed from
    up to, and without, the first semicolon: it holds no semicolon, and
    the text is the net followed by nothing or by a semicolon and the
    rest. *)
Theorem net_is_text_before_semicolon (k : klass) (sch : option Sch.t)
    (ty cid string_ os : string) (ns args_ : list string) :
  let c := (Cpt_init k sch ty cid string_ os ns args_).1 in
  (forall i, String.get i (net c) <> Some ";"%char)
  /\ exists rest,
       string_ = net c +:+ rest
       /\ (rest = "" \/ exists r, rest = String ";" r).
Proof.
  cbv zeta.
  assert (E : net (Cpt_init k sch ty cid string_ os ns args_).1
              = split_head ";" string_).
  { unfold Cpt_init.
    destruct sch as [s|]; [destruct (String.eqb cid "")|]; simpl;
      try destruct (anon s ty); reflexivity. }
  rewrite E. split; [apply split_head_clean | apply split_head_prefix].
Qed.

(** X14. Over any history of constructions and removals, the counter
    that a schematic keeps for a type advances by exactly the number of
    components of that type constructed without an id. *)
Theorem anon_counts_auto_named (evs : list event) (sch : Sch.t) (t : string) :
  default 0 (Sch.anon (run sch evs).2 !! t)
  = default 0 (Sch.anon sch !! t)
    + Z.of_nat (length (auto_names t (run sch evs).1)).
Proof.
  revert sch. induction evs as [|ev rest IH]; intros sch.
  - simpl. lia.
  - destruct ev as [k ty u string_ os ns args_ | n].
    + rewrite run_New. cbv zeta. cbn [fst snd].
      destruct (String.eqb u "") eqn:Eu.
      * apply String.eqb_eq in Eu. subst u.
        destruct (Cpt_init_auto k sch ty string_ os ns args_)
          as (Hname & Hid & Hty & Hs).
        set (r := Cpt_init k (Some sch) ty "" string_ os ns args_) in *.
        clearbody r. rewrite Hs. simpl default.
        set (s1 := Sch.set_elements _ _).
        rewrite (IH s1). unfold auto_names. simpl List.filter.
        rewrite Hty, Hid. clear Hty Hid. cbn [fst].
        destruct (String.eqb ty t) eqn:Et.
        -- apply String.eqb_eq in Et. subst ty. subst s1. simpl.
           rewrite lookup_insert_eq. simpl. lia.
        -- apply String.eqb_neq in Et. subst s1. simpl.
           rewrite lookup_insert_ne by done. reflexivity.
      * apply String.eqb_neq in Eu.
        destruct (Cpt_init_user k sch ty u string_ os ns args_ Eu)
          as (Hname & Hid & Hty & Hs).
        set (r := Cpt_init k (Some sch) ty u string_ os ns args_) in *.
        clearbody r. rewrite Hs. simpl default.
        set (s1 := Sch.set_elements _ _).
        rewrite (IH s1). unfold auto_names. simpl List.filter.
        rewrite Hid. cbn [fst].
        replace (String.eqb u "") with false
          by (symmetry; apply String.eqb_neq; exact Eu).
        rewrite andb_false_r. subst s1. reflexivity.
    + simpl run.
      rewrite (IH (Sch.set_elements sch (delete n (Sch.elements sch)))).
      reflexivity.
Qed.

(** ** Classes of option keys *)

Lemma in_tuple_cases (k : string) (t : list string) :
  in_tuple k t = true -> In k t.
Proof.
  unfold in_tuple. intros H. apply existsb_exists in H.
  destruct H as (x & Hin & Hx). apply String.eqb_eq in Hx. subst. exact Hin.
Qed.

(** X15. Every option key is of exactly one kind: a voltage key, a
    current key, a label key, a key kept for layout (never written to
    the drawing command), or a key that [args_str] passes through; so no
    option is written twice into a command. *)
Theorem option_key_kinds (k : string) :
  count_true
    [in_tuple k voltage_keys; in_tuple k current_keys; in_tuple k label_keys;
     in_tuple k misc_keys;
     negb (in_tuple k
             (voltage_keys ++ current_keys ++ label_keys ++ misc_keys)%list)]
  = 1%nat.
Proof.
  destruct (in_tuple k voltage_keys) eqn:Ev.
  { apply in_tuple_cases in Ev. simpl in Ev.
    repeat (destruct Ev as [<- | Ev]; [vm_compute; reflexivity|]).
    destruct Ev. }
  destruct (in_tuple k current_keys) eqn:Ec.
  { apply in_tuple_cases in Ec. simpl in Ec.
    repeat (destruct Ec as [<- | Ec]; [vm_compute; reflexivity|]).
    destruct Ec. }
  destruct (in_tuple k label_keys) eqn:El.
  { apply in_tuple_cases in El. simpl in El.
    repeat (destruct El as [<- | El]; [vm_compute; reflexivity|]).
    destruct El. }
  destruct (in_tuple k misc_keys) eqn:Em.
  { apply in_tuple_cases in Em. simpl in Em.
    repeat (destruct Em as [<- | Em]; [vm_compute; reflexivity|]).
    destruct Em. }
  unfold in_tuple in *. rewrite !existsb_app, Ev, Ec, El, Em. reflexivity.
Qed.

(** ** Failures of the layout *)

Section LayoutErrors.
Context {rt : Runtime}.

(** X16. With nothing cached, the layout of a component asks for its
    local coordinates before its orientation: [xlink] and [ylink] fail
    with [NotImplementedError] for an instance of the base class,
    whatever its options, and with [KeyError] on [dir] for a component
    that has coordinates but no orientation option. With the transformed
    coordinates cached neither is asked for. *)
Theorem layout_failures (sch : Sch.t) (c : Cpt) (g : list call) :
  (_tcoords c = None -> kroot (cls c) = cCpt ->
   xlink sch c g = Raise NotImplementedError
   /\ ylink sch c g = Raise NotImplementedError)
  /\ (_tcoords c = None -> kroot (cls c) <> cCpt ->
      Dict.get "dir" (opts c) = None ->
      xlink sch c g = Raise (KeyError "dir")
      /\ ylink sch c g = Raise (KeyError "dir"))
  /\ (forall t, _tcoords c = Some t ->
        tcoords c = Ok (t, c)
        /\ (forall xs ns, column t 0 = Ok xs -> dnodes sch c = Ok ns ->
              (length ns <= length xs)%nat ->
              exists l, xlink sch c g = Ok (l, c))).
Proof.
  split; [|split].
  - intros Hc Hk. unfold xlink, ylink, xvals, yvals, tcoords, coords.
    rewrite Hc, Hk. split; reflexivity.
  - intros Hc Hk Hd.
    assert (Hxy : exists xy, coords c = Ok xy).
    { unfold coords. destruct (kroot (cls c)); try congruence; eauto. }
    destruct Hxy as [xy Hxy].
    assert (HR : R c = Raise (KeyError "dir")).
    { unfold R, angle, right, Dict.getitem. rewrite Hd. reflexivity. }
    unfold xlink, ylink, xvals, yvals, tcoords.
    rewrite Hc, Hxy, HR. split; reflexivity.
  - intros t Hc.
    assert (Ht : tcoords c = Ok (t, c))
      by (unfold tcoords; rewrite Hc; reflexivity).
    split; [exact Ht|].
    intros xs ns Hx Hn Hlen.
    destruct (link_all_links ns xs g Hlen) as (calls & Hrun & _).
    unfold xlink, xvals. rewrite Ht. cbn [mbind result_bind].
    rewrite Hx. cbn [mbind result_bind]. rewrite Hn.
    cbn [mbind result_bind]. rewrite Hrun. cbn [mbind result_bind]. eauto.
Qed.

End LayoutErrors.

(** ** The further properties at sample components *)

Ltac distinct_keys := repeat constructor; cbv; intuition discriminate.

Lemma draw_qualifies_options_witness :
  let o := [("v", "5V"); ("dir", "right"); ("l", "load"); ("v^", "old")] in
  (In "_" ["^"; "_"] /\ In "^" ["^"; "_"] /\ List.NoDup (keys o))
  /\ (let q := qualify_opts "_" "^" o in
      List.NoDup (keys q)
      /\ (forall k, In k generic_keys -> Dict.get k q = None)
      /\ (forall k k' x,
            In (k, k') (combine generic_keys (qualified_keys "_" "^")) ->
            Dict.get k o = Some x -> Dict.get k' q = Some x)
      /\ (forall k,
            in_tuple k (generic_keys ++ qualified_keys "_" "^") = false ->
            Dict.get k q = Dict.get k o)).
Proof.
  cbv zeta. split.
  - split; [simpl; auto|]. split; [simpl; auto|]. distinct_keys.
  - apply (draw_qualifies_options "_" "^"
             [("v", "5V"); ("dir", "right"); ("l", "load"); ("v^", "old")]);
      [simpl; auto | simpl; auto | distinct_keys].
Defined.

Example qualified_sample :
  qualify_opts "_" "^"
    [("v", "5V"); ("dir", "right"); ("l", "load"); ("v^", "old")]
  = [("dir", "right"); ("v^", "5V"); ("l_", "load")].
Proof. reflexivity. Qed.

Lemma draw_twice_witness :
  List.NoDup (keys (opts marked_resistor))
  /\ (forall rt : Runtime,
        let s :=
          command "1" "R" ("l_=" +:+ format_label "load")
            (",v^=" +:+ format_label "5V" +:+ ",") "*-*" "R1" "2" in
        let c' :=
          set_opts marked_resistor
            [("dir", "right"); ("v^", "5V"); ("l_", "load")] in
        OnePort_draw sch_with_nodes marked_resistor default_kwargs = Ok (s, c')
        /\ OnePort_draw sch_with_nodes c' default_kwargs = Ok (s, c')).
Proof.
  split; [distinct_keys|].
  intros rt. cbv zeta.
  assert (H : OnePort_draw sch_with_nodes marked_resistor default_kwargs
              = Ok (command "1" "R" ("l_=" +:+ format_label "load")
                      (",v^=" +:+ format_label "5V" +:+ ",") "*-*" "R1" "2",
                    set_opts marked_resistor
                      [("dir", "right"); ("v^", "5V"); ("l_", "load")]))
    by reflexivity.
  split; [exact H|].
  apply (draw_twice sch_with_nodes marked_resistor _ default_kwargs _);
    [distinct_keys | exact H].
Defined.

Lemma tcoords_cached_witness :
  (forall rt : Runtime,
     tcoords (resistor "right")
     = Ok (IntArr [[0; 0]; [1; 0]],
           set_tcoords (resistor "right") (IntArr [[0; 0]; [1; 0]])))
  /\ (forall (rt : Runtime) (o : Dict.t),
        tcoords (set_opts (set_tcoords (resistor "right")
                             (IntArr [[0; 0]; [1; 0]])) o)
        = Ok (IntArr [[0; 0]; [1; 0]],
              set_opts (set_tcoords (resistor "right")
                          (IntArr [[0; 0]; [1; 0]])) o)).
Proof.
  split; [intros rt; reflexivity|].
  intros rt.
  apply (tcoords_cached (resistor "right")
           (set_tcoords (resistor "right") (IntArr [[0; 0]; [1; 0]]))
           (IntArr [[0; 0]; [1; 0]])).
  reflexivity.
Defined.

Lemma tcoords_turns_coords_witness :
  (Dict.get "dir" (opts (opamp [("mirror", "")])) = Some "right"
   /\ cardinal "right" = true
   /\ Dict.mem "rotate" (opts (opamp [("mirror", "")])) = false
   /\ _tcoords (opamp [("mirror", "")]) = None
   /\ coords (opamp [("mirror", "")]) = Ok Opamp_npos)
  /\ (forall rt : Runtime,
        exists t,
          tcoords (opamp [("mirror", "")])
          = Ok (t, set_tcoords (opamp [("mirror", "")]) t)
          /\ same_points (array_points t) (map (turn "right") Opamp_npos)
             = true).
Proof.
  split; [repeat split; reflexivity|].
  intros rt.
  apply (tcoords_turns_coords (opamp [("mirror", "")]) "right" Opamp_npos);
    reflexivity.
Defined.

Example down_turns_one_port :
  forall rt : Runtime,
    fst <$> tcoords (resistor "down") = Ok (IntArr [[0; 0]; [0; -1]]).
Proof. intros rt. reflexivity. Qed.

Lemma one_port_layout_witness :
  (coords (resistor "down") = Ok [(PyInt 0, PyInt 0); (PyInt 1, PyInt 0)]
   /\ dnodes new_sch (resistor "down") = Ok ["1"; "2"]
   /\ Dict.get "dir" (opts (resistor "down")) = Some "down"
   /\ cardinal "down" = true
   /\ Dict.mem "rotate" (opts (resistor "down")) = false
   /\ Dict.mem "size" (opts (resistor "down")) = false
   /\ _tcoords (resistor "down") = None)
  /\ (forall rt : Runtime,
        let c' := set_tcoords (resistor "down") (IntArr [[0; 0]; [0; -1]]) in
        xlink new_sch (resistor "down") [] = Ok ([Link "1" "2"], c')
        /\ ylink new_sch (resistor "down") [] = Ok ([], c')
        /\ xplace new_sch (resistor "down") []
           = Ok ([Add "1" "2" (float_of_int 0)], c')
        /\ yplace new_sch (resistor "down") []
           = Ok ([Add "1" "2" (float_of_int (-1))], c')).
Proof.
  split; [repeat split; reflexivity|].
  intros rt.
  apply (one_port_layout new_sch (resistor "down") "down" "1" "2" []);
    reflexivity.
Defined.

Lemma two_port_links_witness :
  (coords coupling_right = Ok TwoPort_coords
   /\ dnodes sch_with_inductors coupling_right = Ok ["1"; "2"; "3"; "4"]
   /\ Dict.get "dir" (opts coupling_right) = Some "right"
   /\ cardinal "right" = true
   /\ Dict.mem "rotate" (opts coupling_right) = false
   /\ _tcoords coupling_right = None)
  /\ (forall rt : Runtime,
        (fst <$> xlink sch_with_inductors coupling_right [])
        = Ok [Link "1" "2"; Link "3" "4"]
        /\ (fst <$> ylink sch_with_inductors coupling_right [])
           = Ok [Link "1" "3"; Link "2" "4"]).
Proof.
  split; [repeat split; reflexivity|].
  intros rt.
  apply (two_port_links sch_with_inductors coupling_right "right"
           "1" "2" "3" "4" []); reflexivity.
Defined.

Lemma layout_needs_a_point_per_node_witness :
  (forall rt : Runtime,
     xvals resistor3
     = Ok ([PyInt 0; PyInt 1],
           set_tcoords resistor3 (IntArr [[0; 0]; [1; 0]]))
     /\ yvals resistor3
        = Ok ([PyInt 0; PyInt 0],
              set_tcoords resistor3 (IntArr [[0; 0]; [1; 0]]))
     /\ dnodes new_sch resistor3 = Ok ["1"; "2"; "3"]
     /\ size resistor3 = Ok 1%float)
  /\ (forall rt : Runtime,
        xlink new_sch resistor3 [] = Raise IndexError
        /\ xplace new_sch resistor3 [] = Raise IndexError
        /\ ylink new_sch resistor3 [] = Raise IndexError
        /\ yplace new_sch resistor3 [] = Raise IndexError).
Proof.
  split; [intros rt; repeat split; reflexivity|].
  intros rt.
  destruct (layout_needs_a_point_per_node new_sch resistor3
              (set_tcoords resistor3 (IntArr [[0; 0]; [1; 0]]))
              (set_tcoords resistor3 (IntArr [[0; 0]; [1; 0]]))
              [] [PyInt 0; PyInt 1] [PyInt 0; PyInt 0] ["1"; "2"; "3"] 1%float
              eq_refl eq_refl eq_refl eq_refl) as (Hx & Hy & _).
  destruct Hx as [H1 H2]; [simpl; lia|].
  destruct Hy as [H3 H4]; [simpl; lia|].
  auto.
Defined.

Lemma registered_one_ports_draw_witness :
  cls (resistor "right") = class_named "R"
  /\ (forall rt : Runtime,
        (classes !! "R" = Some (class_named "R") ->
         In (kroot (class_named "R")) [cOnePort; cVCS; cCCS; cWire] ->
         is_Some (ktikz (class_named "R"))
         /\ OnePort_draw new_sch (resistor "right") default_kwargs
            <> Raise (AttributeError "tikz_cpt"))
        /\ (module_classes !! "R" = Some (class_named "R") ->
            forall a b, dnodes new_sch (resistor "right") = Ok [a; b] ->
              OnePort_draw new_sch (resistor "right") default_kwargs
              = Raise (AttributeError "tikz_cpt"))).
Proof.
  split; [reflexivity|].
  intros rt.
  apply (registered_one_ports_draw "R" (class_named "R") new_sch
           (resistor "right") default_kwargs).
  reflexivity.
Defined.

Example bare_one_port_draw :
  forall rt : Runtime,
    OnePort_draw sch_with_nodes
      (component "OnePort" "R" "1" ["1"; "2"] [] [("dir", "right")])
      default_kwargs
    = Raise (AttributeError "tikz_cpt").
Proof. intros rt. reflexivity. Qed.

Lemma label_resolution_witness :
  List.NoDup (keys (opts marked_resistor))
  /\ (forall rt : Runtime,
        (label_values default_kwargs = true ->
         default_label marked_resistor = None ->
         label marked_resistor default_kwargs
         = Raise (AttributeError "default_label"))
        /\ (forall dflt,
              (if label_values default_kwargs
               then default_label marked_resistor = Some dflt
               else dflt = "") ->
              label marked_resistor default_kwargs =
                Ok (match Dict.get "l" (opts marked_resistor) with
                    | Some v =>
                        if String.eqb (format_label v) "" then dflt
                        else format_label v
                    | None => dflt
                    end))).
Proof.
  split; [distinct_keys|].
  intros rt. apply (label_resolution marked_resistor default_kwargs).
  distinct_keys.
Defined.

Lemma draw_nodes_lookup_witness :
  dnodes new_sch (resistor "right") = Ok ["1"; "2"]
  /\ (forall (node_name : Node -> string) (kw : kwargs),
        (draw_nodes kw = false ->
         _draw_nodes node_name new_sch (resistor "right") kw = Ok "")
        /\ (draw_nodes kw = true ->
            forall pre n post,
              ["1"; "2"] = (pre ++ n :: post)%list ->
              Forall (fun x => is_Some (Sch.nodes new_sch !! x)) pre ->
              Sch.nodes new_sch !! n = None ->
              _draw_nodes node_name new_sch (resistor "right") kw
              = Raise (KeyError n))).
Proof.
  split; [reflexivity|].
  intros node_name kw.
  apply (draw_nodes_lookup node_name new_sch (resistor "right") kw
           ["1"; "2"]).
  reflexivity.
Defined.

Example unknown_class :
  make "Xyz" (Some new_sch) "X" "1" "X1 1 2" "" ["1"; "2"] []
  = Raise (KeyError "Xyz").
Proof. vm_compute. reflexivity. Qed.

Example numpy_is_no_class :
  make "np" (Some new_sch) "R" "1" "R1 1 2" "" ["1"; "2"] []
  = Raise TypeError.
Proof. vm_compute. reflexivity. Qed.

Example transformer_class :
  find_class "TF"
  = Ok (AClass {| kname := "TF"; kroot := cTF; ktikz := None |})
  /\ classes !! "TF"
     = Some {| kname := "TF"; kroot := cTwoPort; ktikz := Some "transformer" |}.
Proof. vm_compute. auto. Qed.
